(** * Installation pipeline of [install_build.py]

    A shallow embedding of [InstallationManager] (prerequisite gate,
    [run_command], the step loop of [run_installation], [print_summary]) and
    of [main], with the external collaborators (child processes, the
    terminal prompts, the clock) as an explicit environment. *)

From Stdlib Require Import List String Ascii ZArith Bool Arith Lia.
Import ListNotations.
Open Scope string_scope.
Open Scope list_scope.

(** ** Python values used by the script *)

Module Py.

(** A Python [str] is modelled by its UTF-8 encoding.  [chars] cuts it into
    its characters: a lead byte with the continuation bytes (10xxxxxx) that
    follow it. *)
Definition is_continuation (a : ascii) : bool :=
  let n := nat_of_ascii a in (Nat.leb 128 n && Nat.ltb n 192)%bool.

Definition continues (s : string) : bool :=
  match s with
  | String b _ => is_continuation b
  | EmptyString => false
  end.

Fixpoint chars (s : string) : list string :=
  match s with
  | EmptyString => []
  | String a r =>
      if continues r then
        match chars r with
        | c :: cs => String a c :: cs
        | [] => [String a EmptyString]
        end
      else String a EmptyString :: chars r
  end.

Definition code_units (c : string) : list nat :=
  map nat_of_ascii (list_ascii_of_string c).

(** The characters that [str.strip()] removes: those for which
    [str.isspace()] holds, that is U+0009..U+000D, U+001C..U+0020, U+0085,
    U+00A0, U+1680, U+2000..U+200A, U+2028, U+2029, U+202F, U+205F and
    U+3000. *)
Definition is_space (c : string) : bool :=
  match code_units c with
  | [n] =>
      (Nat.eqb n 32 || (Nat.leb 9 n && Nat.leb n 13) || (Nat.leb 28 n && Nat.leb n 31))%bool
  | [a; n] => (Nat.eqb a 194 && (Nat.eqb n 133 || Nat.eqb n 160))%bool
  | [a; b; n] =>
      ((Nat.eqb a 225 && Nat.eqb b 154 && Nat.eqb n 128)
       || (Nat.eqb a 226 && Nat.eqb b 128
           && ((Nat.leb 128 n && Nat.leb n 138) || Nat.eqb n 168 || Nat.eqb n 169
               || Nat.eqb n 175))
       || (Nat.eqb a 226 && Nat.eqb b 129 && Nat.eqb n 159)
       || (Nat.eqb a 227 && Nat.eqb b 128 && Nat.eqb n 128))%bool
  | _ => false
  end.

Fixpoint lstrip (cs : list string) : list string :=
  match cs with
  | [] => []
  | c :: r => if is_space c then lstrip r else cs
  end.

Definition rstrip (cs : list string) : list string := rev (lstrip (rev cs)).

(** [s.strip()] *)
Definition strip (s : string) : string :=
  String.concat EmptyString (rstrip (lstrip (chars s))).

(** [s.lower()], as far as the script's tests can tell: the letters A..Z
    are lowered and every other character is left as it is.  Outside ASCII
    only U+0130 and U+212A have a lowercase with an ASCII letter in it (i
    and k), and the script compares the result with y, yes, n and no only. *)
Definition lower_ascii (a : ascii) : ascii :=
  let n := nat_of_ascii a in
  if (Nat.leb 65 n && Nat.leb n 90)%bool then ascii_of_nat (n + 32) else a.

Fixpoint lower (s : string) : string :=
  match s with
  | EmptyString => EmptyString
  | String a r => String (lower_ascii a) (lower r)
  end.

(** [s[:n]]: the first [n] characters. *)
Definition take (n : nat) (s : string) : string :=
  String.concat EmptyString (firstn n (chars s)).

(** [x in xs] for a list of strings. *)
Definition str_in (x : string) (xs : list string) : bool :=
  existsb (String.eqb x) xs.

(** Truthiness of a string, of an optional string and of an optional list. *)
Definition truthy_str (s : string) : bool :=
  match s with EmptyString => false | _ => true end.

Definition truthy_opt_str (o : option string) : bool :=
  match o with Some s => truthy_str s | None => false end.

Definition truthy_opt_list {A} (o : option (list A)) : bool :=
  match o with Some (_ :: _) => true | _ => false end.

(** The exceptions the script distinguishes.  [MarkupError] is
    [rich.errors.MarkupError], which [console.print] raises for a line whose
    markup has a closing tag that closes nothing; [OtherException] stands
    for any other subclass of [Exception] (EOFError, PermissionError, ...);
    [KeyboardInterrupt] and [SystemExit] derive from [BaseException] only. *)
Inductive exn : Type :=
| TimeoutExpired
| FileNotFoundError
| CalledProcessError (returncode : Z) (cmd : list string)
| SubprocessError
| MarkupError
| OtherException (msg : string)
| KeyboardInterrupt
| SystemExit (code : Z).

(** [isinstance(e, Exception)] *)
Definition is_Exception (e : exn) : bool :=
  match e with
  | KeyboardInterrupt | SystemExit _ => false
  | _ => true
  end.

(** [isinstance(e, subprocess.SubprocessError)] *)
Definition is_SubprocessError (e : exn) : bool :=
  match e with
  | TimeoutExpired | CalledProcessError _ _ | SubprocessError => true
  | _ => false
  end.

(** [isinstance(e, rich.errors.MarkupError)] *)
Definition is_MarkupError (e : exn) : bool :=
  match e with
  | MarkupError => true
  | _ => false
  end.

Inductive result (A : Type) : Type :=
| Ok (a : A)
| Raise (e : exn).
Arguments Ok {A} a.
Arguments Raise {A} e.

(** [subprocess.CompletedProcess] with captured text output. *)
Record CompletedProcess : Type := mkCompleted {
  returncode : Z;
  stdout : string;
  stderr : string
}.

End Py.
Import Py.

(** ** The data model *)

(** [@dataclass class Command] *)
Record Command : Type := mkCommand {
  name : string;
  cmd : list string;
  description : string;
  required : bool;
  check_cmd : option (list string);
  install_hint : option string
}.

(** The two yes/no questions of [run_installation]. *)
Inductive prompt : Type :=
| ContinueInstallation      (* "Continue with installation?" *)
| ContinueDespiteFailure.   (* "Continue despite this failure?" *)

(** One row of the rich summary table: the status label, the count and the
    component names that are written out, with the number of names folded
    into the trailing "(+N more)". *)
Inductive row_status : Type := RowSuccessful | RowFailed | RowSkipped.

Record table_row : Type := mkRow {
  row_status_of : row_status;
  row_count : nat;
  row_components : list string;
  row_more : option nat
}.

(** Everything the script writes to the terminal, one constructor per
    [print] / [console.print] call site (markup left out).  [T] is the type
    of clock readings. *)
Inductive message (T : Type) : Type :=
| MsgHeader
| MsgCheckingPrerequisites
| MsgPrerequisiteOk (tool version : string)
| MsgMissingPrerequisites (missing : list string)
| MsgPleaseInstall
| MsgProgress (description : string)
| MsgToolNotFound (hint : string)
| MsgCompleted (step : string)
| MsgOutput (text : string)
| MsgFailed (step : string)
| MsgErrorOutput (text : string)
| MsgTimedOut (step : string)
| MsgFailedWithExitCode (step : string) (code : Z)
| MsgCommandNotFound (step : string)
| MsgHint (hint : string)
| MsgUnexpectedError (step : string) (e : exn)
| MsgRunning (description : string)
| MsgErrorIn (step : string) (e : exn)
| MsgCancelled
| MsgStarting (total : nat)
| MsgStep (i total : nat) (step : string)
| MsgCriticalFailure (step : string)
| MsgBlank
| MsgTable (rows : list table_row)
| MsgAllSuccessful
| MsgTotalTime (started ended : T)
| MsgNextSteps
| MsgCompletedWithFailures (failures : nat)
| MsgPleaseReview
| MsgSummaryHeading
| MsgCountSuccessful (n : nat)
| MsgCountFailed (n : nat)
| MsgCountSkipped (n : nat)
| MsgFailedComponents (names : list string)
| MsgInterrupted
| MsgUnexpectedTopLevel (e : exn).

Arguments MsgHeader {T}.
Arguments MsgCheckingPrerequisites {T}.
Arguments MsgPrerequisiteOk {T} tool version.
Arguments MsgMissingPrerequisites {T} missing.
Arguments MsgPleaseInstall {T}.
Arguments MsgProgress {T} description.
Arguments MsgToolNotFound {T} hint.
Arguments MsgCompleted {T} step.
Arguments MsgOutput {T} text.
Arguments MsgFailed {T} step.
Arguments MsgErrorOutput {T} text.
Arguments MsgTimedOut {T} step.
Arguments MsgFailedWithExitCode {T} step code.
Arguments MsgCommandNotFound {T} step.
Arguments MsgHint {T} hint.
Arguments MsgUnexpectedError {T} step e.
Arguments MsgRunning {T} description.
Arguments MsgErrorIn {T} step e.
Arguments MsgCancelled {T}.
Arguments MsgStarting {T} total.
Arguments MsgStep {T} i total step.
Arguments MsgCriticalFailure {T} step.
Arguments MsgBlank {T}.
Arguments MsgTable {T} rows.
Arguments MsgAllSuccessful {T}.
Arguments MsgTotalTime {T} started ended.
Arguments MsgNextSteps {T}.
Arguments MsgCompletedWithFailures {T} failures.
Arguments MsgPleaseReview {T}.
Arguments MsgSummaryHeading {T}.
Arguments MsgCountSuccessful {T} n.
Arguments MsgCountFailed {T} n.
Arguments MsgCountSkipped {T} n.
Arguments MsgFailedComponents {T} names.
Arguments MsgInterrupted {T}.
Arguments MsgUnexpectedTopLevel {T} e.

(** The interaction log of a run: every child process spawned (with its
    timeout and what came back), every line printed, every question asked
    (with the answer). *)
Inductive event (T : Type) : Type :=
| EvSpawn (argv : list string) (timeout : Z) (r : result CompletedProcess)
| EvPrint (m : message T)
| EvConfirm (p : prompt) (default : bool) (r : result bool)
| EvInput (p : prompt) (r : result string).

Arguments EvSpawn {T} argv timeout r.
Arguments EvPrint {T} m.
Arguments EvConfirm {T} p default r.
Arguments EvInput {T} p r.

(** ** The environment

    The collaborators the script calls out to.  Each may depend on, and
    change, the state of the outside world. *)
Class Env : Type := {
  World : Type;
  Instant : Type;
  (** [subprocess.run(argv, capture_output=True, text=True, timeout=t)] *)
  subprocess_run : list string -> Z -> World -> result CompletedProcess * World;
  (** [rich.prompt.Confirm.ask(question, default=d)] *)
  Confirm_ask : prompt -> bool -> World -> result bool * World;
  (** [input(question)] *)
  input : prompt -> World -> result string * World;
  (** [time.time()] *)
  time_time : World -> Instant * World;
  (** Whether rich's [console.print] rejects a line into which the script
      has put the output of a child process.  The script does not escape
      that output, so rich reads it as markup and raises [MarkupError] when
      it holds a closing tag that closes nothing, as in [[/usr/bin]]. *)
  rich_rejects : message Instant -> bool;
  (** [MarkupError] is rich's own: [subprocess.run] never raises it. *)
  subprocess_run_not_rich :
    forall argv t w, fst (subprocess_run argv t w) <> Raise MarkupError
}.

(** [class InstallationManager]: the fields of [self]. *)
Record Manager `{E : Env} : Type := mkManager {
  failed_commands : list string;
  successful_commands : list string;
  skipped_commands : list string;
  start_time : Instant;
  commands : list Command
}.

Record State `{E : Env} : Type := mkState {
  world : World;
  trace : list (event Instant);
  self : Manager
}.

Arguments mkManager {_} _ _ _ _ _.
Arguments mkState {_} _ _ _.

(** ** A state-and-exception monad for the script's methods

    A method runs in a [State] and either returns or raises; the state
    changes made before a [raise] are kept, as in Python. *)

Section Program.
Context `{E : Env}.

Definition M (A : Type) : Type := State -> result A * State.

Definition ret {A} (a : A) : M A := fun s => (Ok a, s).

Definition bind {A B} (m : M A) (k : A -> M B) : M B :=
  fun s =>
    match m s with
    | (Ok a, s') => k a s'
    | (Raise e, s') => (Raise e, s')
    end.

Definition raise {A} (e : exn) : M A := fun s => (Raise e, s).

(** [try: body except ...: handler]; the handler answers [None] for an
    exception that no [except] clause matches. *)
Definition try_except {A} (body : M A) (handler : exn -> option (M A)) : M A :=
  fun s =>
    match body s with
    | (Ok a, s') => (Ok a, s')
    | (Raise e, s') =>
        match handler e with
        | Some h => h s'
        | None => (Raise e, s')
        end
    end.

Notation "x <- m ;; k" := (bind m (fun x => k))
  (at level 61, m at next level, right associativity).
Notation "m ;; k" := (bind m (fun _ => k))
  (at level 61, right associativity).

(** [if cond: body] with no [else]. *)
Definition when (cond : bool) (body : M unit) : M unit :=
  if cond then body else ret tt.

Definition log (e : event Instant) : M unit :=
  fun s => (Ok tt, mkState (world s) (trace s ++ [e]) (self s)).

(** [print(line)], and [console.print(line)] for a line made of the
    script's own text: its messages, the names and hints of its steps (which
    hold no markup), a return code. *)
Definition console_print (m : message Instant) : M unit := log (EvPrint m).

(** [console.print(line)] for a line that rich may reject: nothing is
    printed then, and [MarkupError] is raised. *)
Definition print_markup (rejected : bool) (m : message Instant) : M unit :=
  if rejected then raise MarkupError else console_print m.

(** A line that holds the output of a child process: [console.print] on the
    rich path, [print] on the plain one. *)
Definition print_child_output (rich : bool) (m : message Instant) : M unit :=
  print_markup (rich && rich_rejects m) m.

(** A line that holds [str(e)].  The text of a [MarkupError] quotes the
    closing tag that rich has rejected, and that tag closes nothing in this
    line either (where it closes the line's own tag, that tag's end is left
    over): on the rich path printing it raises [MarkupError] again.  The
    texts of the other exceptions that reach these lines ("[Errno 2] No such
    file or directory: 'pnpm'", "Command '['cargo', 'build']' timed out after
    300 seconds", "EOF when reading a line") hold no tag, which starts with
    a lower-case letter, #, / or @ after its bracket. *)
Definition print_exception (rich : bool) (m : message Instant) (e : exn) : M unit :=
  print_markup (rich && is_MarkupError e) m.

Definition run_subprocess (argv : list string) (timeout : Z) : M CompletedProcess :=
  fun s =>
    let (r, w) := subprocess_run argv timeout (world s) in
    (r, mkState w (trace s ++ [EvSpawn argv timeout r]) (self s)).

Definition ask_confirm (p : prompt) (default : bool) : M bool :=
  fun s =>
    let (r, w) := Confirm_ask p default (world s) in
    (r, mkState w (trace s ++ [EvConfirm p default r]) (self s)).

Definition ask_input (p : prompt) : M string :=
  fun s =>
    let (r, w) := input p (world s) in
    (r, mkState w (trace s ++ [EvInput p r]) (self s)).

Definition now : M Instant :=
  fun s =>
    let (t, w) := time_time (world s) in
    (Ok t, mkState w (trace s) (self s)).

Definition get_self : M Manager := fun s => (Ok (self s), s).

Definition set_self (m : Manager) : M unit :=
  fun s => (Ok tt, mkState (world s) (trace s) m).

(** [sys.exit(code)] *)
Definition sys_exit (code : Z) : M unit := raise (SystemExit code).

(** [self.successful_commands.append(n)] and [self.failed_commands.append(n)] *)
Definition append_successful (n : string) : M unit :=
  m <- get_self ;;
  set_self (mkManager (failed_commands m) (successful_commands m ++ [n])
                      (skipped_commands m) (start_time m) (commands m)).

Definition append_failed (n : string) : M unit :=
  m <- get_self ;;
  set_self (mkManager (failed_commands m ++ [n]) (successful_commands m)
                      (skipped_commands m) (start_time m) (commands m)).

(** *** [print_header] *)
Definition print_header : M unit := console_print MsgHeader.

(** *** [check_prerequisites] *)
Definition prerequisites : list (string * list string * string) :=
  [ ("node", ["node"; "--version"], "Node.js");
    ("npm", ["npm"; "--version"], "npm");
    ("git", ["git"; "--version"], "Git") ].

(** One pass of the loop body over [(tool, cmd, name)], with the list
    [missing] built so far. *)
Definition check_prerequisite (rich : bool) (missing : list string)
    (p : string * list string * string) : M (list string) :=
  let '(_, argv, tool_name) := p in
  try_except
    (result <- run_subprocess argv 10 ;;
     if (returncode result =? 0)%Z then
       print_child_output rich (MsgPrerequisiteOk tool_name (strip (stdout result))) ;;
       ret missing
     else ret (missing ++ [tool_name]))
    (fun e =>
       match e with
       | TimeoutExpired | FileNotFoundError => Some (ret (missing ++ [tool_name]))
       | _ => if is_SubprocessError e then Some (ret (missing ++ [tool_name])) else None
       end).

Fixpoint check_each (rich : bool) (ps : list (string * list string * string))
    (missing : list string) : M (list string) :=
  match ps with
  | [] => ret missing
  | p :: rest =>
      missing' <- check_prerequisite rich missing p ;;
      check_each rich rest missing'
  end.

Definition check_prerequisites (rich : bool) : M bool :=
  console_print MsgCheckingPrerequisites ;;
  missing <- check_each rich prerequisites [] ;;
  match missing with
  | _ :: _ =>
      console_print (MsgMissingPrerequisites missing) ;;
      console_print MsgPleaseInstall ;;
      ret false
  | [] => ret true
  end.

(** *** [run_command]

    [rich] is [RICH_AVAILABLE].  The rich branch keeps the child's working
    directory ([cwd=os.getcwd()] is the directory it would inherit anyway).
    Its [except Exception] clause also catches the [MarkupError] of the two
    lines that print child output, and raises it again by printing it. *)
Definition run_command (rich : bool) (command : Command) : M bool :=
  if rich then
    console_print (MsgProgress (description command)) ;;
    try_except
      (when (truthy_opt_list (check_cmd command))
         (let argv := match check_cmd command with Some a => a | None => [] end in
          check_result <- run_subprocess argv 10 ;;
          when (negb (returncode check_result =? 0)%Z)
            (when (truthy_opt_str (install_hint command))
               (console_print
                  (MsgToolNotFound
                     (match install_hint command with Some h => h | None => "" end))) ;;
             raise (CalledProcessError (returncode check_result) argv))) ;;
       result <- run_subprocess (cmd command) 300 ;;
       if (returncode result =? 0)%Z then
         console_print (MsgCompleted (name command)) ;;
         when (truthy_str (strip (stdout result)))
           (print_child_output true (MsgOutput (take 100 (strip (stdout result))))) ;;
         ret true
       else
         console_print (MsgFailed (name command)) ;;
         when (truthy_str (stderr result))
           (print_child_output true
              (MsgErrorOutput (take 200 (strip (stderr result))))) ;;
         ret false)
      (fun e =>
         match e with
         | TimeoutExpired =>
             Some (console_print (MsgTimedOut (name command)) ;; ret false)
         | CalledProcessError rc _ =>
             Some (console_print (MsgFailedWithExitCode (name command) rc) ;; ret false)
         | FileNotFoundError =>
             Some (console_print (MsgCommandNotFound (name command)) ;;
                   when (truthy_opt_str (install_hint command))
                     (console_print
                        (MsgHint (match install_hint command with Some h => h | None => "" end))) ;;
                   ret false)
         | _ =>
             if is_Exception e then
               Some (print_exception true (MsgUnexpectedError (name command) e) e ;;
                     ret false)
             else None
         end)
  else
    console_print (MsgRunning (description command)) ;;
    try_except
      (result <- run_subprocess (cmd command) 300 ;;
       if (returncode result =? 0)%Z then
         console_print (MsgCompleted (name command)) ;;
         ret true
       else
         console_print (MsgFailed (name command)) ;;
         when (truthy_str (stderr result))
           (console_print (MsgErrorOutput (take 200 (strip (stderr result))))) ;;
         ret false)
      (fun e =>
         if is_Exception e then
           Some (console_print (MsgErrorIn (name command) e) ;; ret false)
         else None).

(** *** The "continue despite this failure?" question of the step loop:
    [true] when the run goes on. *)
Definition ask_continue (rich : bool) : M bool :=
  if rich then ask_confirm ContinueDespiteFailure false
  else
    response <- ask_input ContinueDespiteFailure ;;
    ret (str_in (lower (strip response)) ["y"; "yes"]).

(** *** The step loop of [run_installation]:
    [for i, command in enumerate(self.commands, 1)], with [total] for
    [len(self.commands)]; leaving the recursion is [break]. *)
Fixpoint run_steps (rich : bool) (total i : nat) (cs : list Command) : M unit :=
  match cs with
  | [] => ret tt
  | command :: rest =>
      console_print (MsgStep i total (name command)) ;;
      success <- run_command rich command ;;
      if success then
        append_successful (name command) ;;
        run_steps rich total (S i) rest
      else
        append_failed (name command) ;;
        if required command then
          console_print (MsgCriticalFailure (name command)) ;;
          go_on <- ask_continue rich ;;
          if go_on then run_steps rich total (S i) rest else ret tt
        else run_steps rich total (S i) rest
  end.

(** *** [print_summary] *)
Definition summary_rows (m : Manager) : list table_row :=
  (match successful_commands m with
   | _ :: _ =>
       [mkRow RowSuccessful (List.length (successful_commands m))
          (firstn 3 (successful_commands m))
          (if Nat.ltb 3 (List.length (successful_commands m))
           then Some (List.length (successful_commands m) - 3) else None)]
   | [] => []
   end) ++
  (match failed_commands m with
   | _ :: _ => [mkRow RowFailed (List.length (failed_commands m)) (failed_commands m) None]
   | [] => []
   end) ++
  (match skipped_commands m with
   | _ :: _ => [mkRow RowSkipped (List.length (skipped_commands m)) (skipped_commands m) None]
   | [] => []
   end).

Definition print_summary (rich : bool) : M unit :=
  end_time <- now ;;
  m <- get_self ;;
  if rich then
    console_print MsgBlank ;;
    console_print (MsgTable (summary_rows m)) ;;
    match failed_commands m with
    | [] =>
        console_print MsgAllSuccessful ;;
        console_print (MsgTotalTime (start_time m) end_time) ;;
        console_print MsgNextSteps
    | _ :: _ =>
        console_print (MsgCompletedWithFailures (List.length (failed_commands m))) ;;
        console_print MsgPleaseReview ;;
        console_print (MsgTotalTime (start_time m) end_time)
    end
  else
    console_print MsgSummaryHeading ;;
    console_print (MsgCountSuccessful (List.length (successful_commands m))) ;;
    console_print (MsgCountFailed (List.length (failed_commands m))) ;;
    console_print (MsgCountSkipped (List.length (skipped_commands m))) ;;
    console_print (MsgTotalTime (start_time m) end_time) ;;
    when (match failed_commands m with [] => false | _ => true end)
      (console_print (MsgFailedComponents (failed_commands m))) ;;
    when (match failed_commands m with [] => true | _ => false end)
      (console_print MsgAllSuccessful ;; console_print MsgNextSteps).

(** *** [run_installation] *)
Definition confirm_start (rich : bool) : M unit :=
  if rich then
    go <- ask_confirm ContinueInstallation true ;;
    when (negb go) (console_print MsgCancelled ;; sys_exit 0)
  else
    response <- ask_input ContinueInstallation ;;
    when (str_in (lower (strip response)) ["n"; "no"])
      (console_print MsgCancelled ;; sys_exit 0).

Definition run_installation (rich : bool) : M unit :=
  print_header ;;
  ok <- check_prerequisites rich ;;
  when (negb ok) (sys_exit 1) ;;
  confirm_start rich ;;
  m <- get_self ;;
  console_print (MsgStarting (List.length (commands m))) ;;
  run_steps rich (List.length (commands m)) 1 (commands m) ;;
  print_summary rich.

End Program.

(** *** [InstallationManager.__init__] and [main] *)

(** The command list that [__init__] installs in [self.commands]. *)
Definition default_commands : list Command :=
  [ mkCommand "Node.js/pnpm Check" ["pnpm"; "--version"]
      "Checking if pnpm is available" true
      (Some ["pnpm"; "--version"]) (Some "Install pnpm: npm install -g pnpm");
    mkCommand "Rust/Cargo Check" ["cargo"; "--version"]
      "Checking if Cargo is available" true
      (Some ["cargo"; "--version"]) (Some "Install Rust: https://rustup.rs/");
    mkCommand "Frontend Dependencies" ["pnpm"; "install"]
      "Installing frontend dependencies with pnpm" true None None;
    mkCommand "Rust Dependencies Fetch" ["cargo"; "fetch"]
      "Fetching Rust dependencies" true None None;
    mkCommand "Rust Dependencies Build" ["cargo"; "build"]
      "Building Rust dependencies" true None None;
    mkCommand "Tauri CLI" ["cargo"; "install"; "tauri-cli"; "--version"; "^1"]
      "Installing Tauri CLI (latest v1.x)" true None None;
    mkCommand "Cargo Nextest" ["cargo"; "install"; "--locked"; "cargo-nextest"]
      "Installing cargo-nextest for enhanced testing" true None None;
    mkCommand "Cargo Helper Tools" ["cargo"; "install"; "cargo-edit"; "cargo-watch"]
      "Installing cargo-edit and cargo-watch utilities" true None None ].

(** A manager as [__init__] leaves it, for a given command list. *)
Definition new_manager `{E : Env} (t : Instant) (cs : list Command) : Manager :=
  mkManager [] [] [] t cs.

(** [main], for a manager with the command list [cs]: the run of the whole
    process from the world [w].  An exception raised in a handler leaves
    [main] like any other. *)
Definition main_on `{E : Env} (cs : list Command) (rich : bool) (w : World)
    : result unit * State :=
  let (t, w0) := time_time w in
  try_except (run_installation rich)
    (fun e =>
       match e with
       | KeyboardInterrupt =>
           Some (bind (console_print MsgInterrupted) (fun _ => sys_exit 1))
       | _ =>
           if is_Exception e then
             Some (bind (print_exception rich (MsgUnexpectedTopLevel e) e)
                     (fun _ => sys_exit 1))
           else None
       end)
    (mkState w0 [] (new_manager t cs)).

Definition main `{E : Env} (rich : bool) (w : World) : result unit * State :=
  main_on default_commands rich w.

(** The exit status of the interpreter: 0 after a normal return, the code of
    a [SystemExit], 1 for any other exception that reaches the top. *)
Definition exit_status {A} (r : result A) : Z :=
  match r with
  | Ok _ => 0
  | Raise (SystemExit code) => code
  | Raise _ => 1
  end.

(** ** Observations on a run *)

Section Observations.
Context `{E : Env}.

(** The three outcome sequences of a manager, one after the other. *)
Definition classified (m : Manager) : list string :=
  successful_commands m ++ failed_commands m ++ skipped_commands m.

Definition is_prompt (ev : event Instant) : bool :=
  match ev with
  | EvConfirm _ _ _ | EvInput _ _ => true
  | _ => false
  end.

Definition is_spawn (ev : event Instant) : bool :=
  match ev with
  | EvSpawn _ _ _ => true
  | _ => false
  end.

(** The answer that makes the step loop [break]. *)
Definition declined (ev : event Instant) : bool :=
  match ev with
  | EvConfirm ContinueDespiteFailure _ (Ok false) => true
  | EvInput ContinueDespiteFailure (Ok response) =>
      negb (str_in (lower (strip response)) ["y"; "yes"])
  | _ => false
  end.

(** A run was halted when its log shows a declined continue question. *)
Definition halted (tr : list (event Instant)) : bool := existsb declined tr.

(** The summary names [n]: in a row of the rich table or in the plain
    "Failed components" line. *)
Definition summary_names (n : string) (ev : event Instant) : bool :=
  match ev with
  | EvPrint (MsgTable rows) => existsb (fun r => str_in n (row_components r)) rows
  | EvPrint (MsgFailedComponents names) => str_in n names
  | _ => false
  end.

Definition in_summary (n : string) (tr : list (event Instant)) : bool :=
  existsb (summary_names n) tr.

(** The state a computation leaves. *)
Definition after {A} (m : M A) (s : State) : State := snd (m s).

(** [run_command] gets as far as the main invocation of [command] when
    started in the world [w]: either it runs no precheck (none declared, or
    the plain path), or the precheck exits 0; [w1] is the world in which the
    main invocation is then spawned. *)
Definition reaches_invocation (rich : bool) (command : Command) (w w1 : World) : Prop :=
  if (rich && truthy_opt_list (check_cmd command))%bool then
    exists p,
      subprocess_run (match check_cmd command with Some a => a | None => [] end) 10 w
      = (Ok p, w1) /\ returncode p = 0%Z
  else w1 = w.

(** The main invocation (and the precheck, where one is run) of [command]
    exits 0 from the world [w], leaving [w']. *)
Definition exits_zero (rich : bool) (command : Command) (w w' : World) : Prop :=
  exists w1 p,
    reaches_invocation rich command w w1 /\
    subprocess_run (cmd command) 300 w1 = (Ok p, w') /\ returncode p = 0%Z.

(** Every step of [cs], run in turn from [w], exits 0. *)
Fixpoint all_exit_zero (rich : bool) (cs : list Command) (w : World) : Prop :=
  match cs with
  | [] => True
  | c :: rest => exists w', exits_zero rich c w w' /\ all_exit_zero rich rest w'
  end.

(** The state in which the loop calls [run_command] for step [i]. *)
Definition at_step (total i : nat) (command : Command) (s : State) : State :=
  after (console_print (MsgStep i total (name command))) s.

(** The state in which the loop asks whether to continue, after
    [run_command] left [s1] for a failed required step. *)
Definition at_question (command : Command) (s1 : State) : State :=
  after (console_print (MsgCriticalFailure (name command)))
        (after (append_failed (name command)) s1).

(** [Passes rich total i cs s verdicts s']: the loop, started in [s] on the
    steps [cs] (numbered from [i]), runs every one of them and goes on after
    each; [verdicts] tells which succeeded and [s'] is the state reached. *)
Inductive Passes (rich : bool) (total : nat)
  : nat -> list Command -> State -> list bool -> State -> Prop :=
| Passes_nil i s : Passes rich total i [] s [] s
| Passes_success i c rest s s1 vs s' :
    run_command rich c (at_step total i c s) = (Ok true, s1) ->
    Passes rich total (S i) rest (after (append_successful (name c)) s1) vs s' ->
    Passes rich total i (c :: rest) s (true :: vs) s'
| Passes_optional i c rest s s1 vs s' :
    run_command rich c (at_step total i c s) = (Ok false, s1) ->
    required c = false ->
    Passes rich total (S i) rest (after (append_failed (name c)) s1) vs s' ->
    Passes rich total i (c :: rest) s (false :: vs) s'
| Passes_accepted i c rest s s1 s2 vs s' :
    run_command rich c (at_step total i c s) = (Ok false, s1) ->
    required c = true ->
    ask_continue rich (at_question c s1) = (Ok true, s2) ->
    Passes rich total (S i) rest s2 vs s' ->
    Passes rich total i (c :: rest) s (false :: vs) s'.

(** The names of the steps with the verdict [v]. *)
Fixpoint names_with (v : bool) (cs : list Command) (verdicts : list bool) : list string :=
  match cs, verdicts with
  | c :: cs', b :: vs' =>
      if Bool.eqb b v then name c :: names_with v cs' vs' else names_with v cs' vs'
  | _, _ => []
  end.

(** A manager whose three outcome sequences are still empty. *)
Definition fresh (m : Manager) : Prop :=
  successful_commands m = [] /\ failed_commands m = [] /\ skipped_commands m = [].

(** A prerequisite check that makes [check_prerequisites] report the tool
    missing, and one that it can classify at all. *)
Definition reported_missing (r : result CompletedProcess) : bool :=
  match r with
  | Ok p => negb (returncode p =? 0)%Z
  | Raise _ => true
  end.

Definition classifiable (r : result CompletedProcess) : bool :=
  match r with
  | Ok _ => true
  | Raise TimeoutExpired | Raise FileNotFoundError => true
  | Raise e => is_SubprocessError e
  end.

(** The three prerequisite checks, run in turn from the world [w]: what
    came back from each and the world afterwards. *)
Definition gate_answers (w : World) : list (result CompletedProcess) * World :=
  let (r1, w1) := subprocess_run ["node"; "--version"] 10 w in
  let (r2, w2) := subprocess_run ["npm"; "--version"] 10 w1 in
  let (r3, w3) := subprocess_run ["git"; "--version"] 10 w2 in
  ([r1; r2; r3], w3).

(** The log entries of those checks, and the tools reported missing. *)
Definition gate_spawns (rs : list (result CompletedProcess)) : list (event Instant) :=
  map (fun pr => EvSpawn (snd (fst (fst pr))) 10 (snd pr)) (combine prerequisites rs).

Definition gate_missing (rs : list (result CompletedProcess)) : list string :=
  map (fun pr => snd (fst pr))
      (filter (fun pr => reported_missing (snd pr)) (combine prerequisites rs)).

(** A prerequisite check that finds the tool. *)
Definition found (r : result CompletedProcess) : bool :=
  match r with
  | Ok p => (returncode p =? 0)%Z
  | Raise _ => false
  end.

(** The three behaviours of a child process that the script expects: it
    returns an exit code, it times out, or its executable is missing; and
    questions that are answered. *)
Definition ordinary (r : result CompletedProcess) : bool :=
  match r with
  | Ok _ | Raise TimeoutExpired | Raise FileNotFoundError => true
  | _ => false
  end.

(** The answer to the continue question given in the world [w]: whether
    the loop goes on. *)
Definition answers_continue (rich : bool) (go_on : bool) (w w' : World) : Prop :=
  if rich then Confirm_ask ContinueDespiteFailure false w = (Ok go_on, w')
  else exists response,
      input ContinueDespiteFailure w = (Ok response, w') /\
      str_in (lower (strip response)) ["y"; "yes"] = go_on.

(** The user declines the question asked before the first step. *)
Definition declines_start (rich : bool) (w w' : World) : Prop :=
  if rich then Confirm_ask ContinueInstallation true w = (Ok false, w')
  else exists response,
      input ContinueInstallation w = (Ok response, w') /\
      str_in (lower (strip response)) ["n"; "no"] = true.

(** The user lets the installation start. *)
Definition accepts_start (rich : bool) (w w' : World) : Prop :=
  if rich then Confirm_ask ContinueInstallation true w = (Ok true, w')
  else exists response,
      input ContinueInstallation w = (Ok response, w') /\
      str_in (lower (strip response)) ["n"; "no"] = false.

(** The lines that [print_summary] writes, and the summary part of a log. *)
Definition is_summary_line (ev : event Instant) : bool :=
  match ev with
  | EvPrint m =>
      match m with
      | MsgBlank | MsgTable _ | MsgAllSuccessful | MsgTotalTime _ _ | MsgNextSteps
      | MsgCompletedWithFailures _ | MsgPleaseReview | MsgSummaryHeading
      | MsgCountSuccessful _ | MsgCountFailed _ | MsgCountSkipped _
      | MsgFailedComponents _ => true
      | _ => false
      end
  | _ => false
  end.

Definition summary_of (tr : list (event Instant)) : list (event Instant) :=
  filter is_summary_line tr.

(** The line that the gate prints after a prerequisite check that came back
    with [r]: the version of a tool that was found. *)
Definition version_line (tool_name : string) (r : result CompletedProcess)
    : list (message Instant) :=
  match r with
  | Ok p =>
      if (returncode p =? 0)%Z then [MsgPrerequisiteOk tool_name (strip (stdout p))]
      else []
  | Raise _ => []
  end.

Definition version_lines (rs : list (result CompletedProcess)) : list (message Instant) :=
  flat_map (fun pr => version_line (snd (fst pr)) (snd pr)) (combine prerequisites rs).

(** The line with which the rich path of [run_command] shows the output of
    the main invocation that came back with [r]. *)
Definition output_line (r : result CompletedProcess) : list (message Instant) :=
  match r with
  | Ok p =>
      if (returncode p =? 0)%Z then
        if truthy_str (strip (stdout p)) then [MsgOutput (take 100 (strip (stdout p)))]
        else []
      else
        if truthy_str (stderr p) then [MsgErrorOutput (take 200 (strip (stderr p)))]
        else []
  | Raise _ => []
  end.

(** The console prints every line of [ms]: always on the plain path, and on
    the rich path when rich rejects none of them. *)
Definition rendered (rich : bool) (ms : list (message Instant)) : bool :=
  (negb rich || negb (existsb rich_rejects ms))%bool.

(** The console prints whatever the child processes have written. *)
Definition renders_all (rich : bool) : Prop :=
  rich = true -> forall m, rich_rejects m = false.

(** What a method has added to the log, and a log without its lines on the
    elapsed time. *)
Definition printed {A} (m : M A) (s : State) : list (event Instant) :=
  skipn (List.length (trace s)) (trace (after m s)).

Definition is_total_time (ev : event Instant) : bool :=
  match ev with
  | EvPrint (MsgTotalTime _ _) => true
  | _ => false
  end.

Definition untimed (tr : list (event Instant)) : list (event Instant) :=
  filter (fun ev => negb (is_total_time ev)) tr.

(** The state in which [main] calls [check_prerequisites]. *)
Definition at_gate (cs : list Command) (w : World) : State :=
  let (t, w0) := time_time w in
  after print_header (mkState w0 [] (new_manager t cs)).

Definition ordinary_env : Prop :=
  (forall argv t w, ordinary (fst (subprocess_run argv t w)) = true) /\
  (forall p d w, exists b, fst (Confirm_ask p d w) = Ok b) /\
  (forall p w, exists r, fst (input p w) = Ok r).

End Observations.

(** ** Scripted environments

    A world without state: each child process behaves as [proc] says, each
    question gets the answer [yes] (rich) or [typed] (plain), and rich
    rejects the lines that [rejects] names. *)
Definition scripted_on (rejects : message unit -> bool)
    (proc : list string -> result CompletedProcess)
    (not_rich : forall argv, proc argv <> Raise MarkupError)
    (yes : prompt -> bool) (typed : prompt -> string) : Env :=
  {| World := unit;
     Instant := unit;
     subprocess_run := fun argv _ w => (proc argv, w);
     Confirm_ask := fun p _ w => (Ok (yes p), w);
     input := fun p w => (Ok (typed p), w);
     time_time := fun w => (tt, w);
     rich_rejects := rejects;
     subprocess_run_not_rich := fun argv _ _ => not_rich argv |}.

(** The same with a console that prints every line. *)
Definition scripted (proc : list string -> result CompletedProcess)
    (not_rich : forall argv, proc argv <> Raise MarkupError)
    (yes : prompt -> bool) (typed : prompt -> string) : Env :=
  scripted_on (fun _ => false) proc not_rich yes typed.

(** A world with a clock that counts seconds: a child process that runs
    into its timeout takes the whole of it, any other takes one second. *)
Definition clocked (proc : list string -> result CompletedProcess)
    (not_rich : forall argv, proc argv <> Raise MarkupError)
    (yes : prompt -> bool) (typed : prompt -> string) : Env :=
  {| World := nat;
     Instant := nat;
     subprocess_run := fun argv t w =>
       (proc argv,
        match proc argv with
        | Raise TimeoutExpired => w + Z.to_nat t
        | _ => w + 1
        end);
     Confirm_ask := fun p _ w => (Ok (yes p), w);
     input := fun p w => (Ok (typed p), w);
     time_time := fun w => (w, w);
     rich_rejects := fun _ => false;
     subprocess_run_not_rich := fun argv _ _ => not_rich argv |}.

Definition argv_eqb (a b : list string) : bool :=
  if list_eq_dec string_dec a b then true else false.

Definition exit_with (code : Z) : result CompletedProcess :=
  Ok (mkCompleted code "" "").

(** The three prerequisite tools answer with a version. *)
Definition is_prerequisite (argv : list string) : bool :=
  (argv_eqb argv ["node"; "--version"] || argv_eqb argv ["npm"; "--version"]
   || argv_eqb argv ["git"; "--version"])%bool.

(** Steps A, B, C, all required, none with a precheck. *)
Definition step_A : Command := mkCommand "A" ["a"] "step A" true None None.
Definition step_B : Command := mkCommand "B" ["b"] "step B" true None None.
Definition step_C : Command := mkCommand "C" ["c"] "step C" true None None.

(** B as an optional step, and B with an invocation that hangs. *)
Definition step_B_optional : Command := mkCommand "B" ["b"] "step B" false None None.
Definition step_B_hanging : Command := mkCommand "B" ["hang"] "step B" true None None.

(** A step whose precheck [false] exits 1 and whose invocation [true]
    exits 0. *)
Definition step_guarded : Command :=
  mkCommand "Tool" ["true"] "Checking the tool" true (Some ["false"])
    (Some "Install the tool").

(** [b] and [false] exit 1, [hang] runs into the timeout, every other
    command (the prerequisite tools among them) exits 0. *)
Definition proc_script (argv : list string) : result CompletedProcess :=
  if (argv_eqb argv ["b"] || argv_eqb argv ["false"])%bool then exit_with 1
  else if argv_eqb argv ["hang"] then Raise TimeoutExpired
  else exit_with 0.

(** The prerequisite tools are installed and nothing else. *)
Definition proc_only_tools (argv : list string) : result CompletedProcess :=
  if is_prerequisite argv then exit_with 0 else Raise FileNotFoundError.

(** Git is not installed; every other command exits 0. *)
Definition proc_no_git (argv : list string) : result CompletedProcess :=
  if argv_eqb argv ["git"; "--version"] then Raise FileNotFoundError else exit_with 0.

(** A machine on which [b] is interrupted from the keyboard. *)
Definition proc_interrupt (argv : list string) : result CompletedProcess :=
  if argv_eqb argv ["b"] then Raise KeyboardInterrupt else exit_with 0.

(** Node.js is not installed and [npm] may not be executed
    ([PermissionError], an [OSError]); every other command exits 0. *)
Definition proc_denied (argv : list string) : result CompletedProcess :=
  if argv_eqb argv ["node"; "--version"] then Raise FileNotFoundError
  else if argv_eqb argv ["npm"; "--version"]
       then Raise (OtherException "[Errno 13] Permission denied: 'npm'")
       else exit_with 0.

(** [a] exits 0 and writes the directory it was found in before its
    version; [b] exits 1 and names a file in its error output; every other
    command exits 0 and writes nothing. *)
Definition proc_brackets (argv : list string) : result CompletedProcess :=
  if argv_eqb argv ["a"] then Ok (mkCompleted 0 "[/opt/pnpm] 9.1.0" "")
  else if argv_eqb argv ["b"] then Ok (mkCompleted 1 "" "[/tmp/x]")
  else exit_with 0.

(** Child output with a closing tag in it.  In the examples below it holds
    no opening tag, so that the closing tag closes nothing and rich rejects
    the line. *)
Fixpoint has_closing_tag (s : string) : bool :=
  match s with
  | EmptyString => false
  | String a r =>
      (Ascii.eqb a "[" && match r with
                          | String b _ => Ascii.eqb b "/"
                          | EmptyString => false
                          end)
      || has_closing_tag r
  end.

Definition rejects_closing_tag (m : message unit) : bool :=
  match m with
  | MsgPrerequisiteOk _ text | MsgOutput text | MsgErrorOutput text =>
      has_closing_tag text
  | _ => false
  end.

(** None of these child processes raises rich's [MarkupError]. *)
Ltac proc_not_rich :=
  intro argv;
  repeat match goal with
         | |- context [ if ?b then _ else _ ] => destruct b
         end;
  discriminate.

Lemma proc_script_not_rich argv : proc_script argv <> Raise MarkupError.
Proof. revert argv. unfold proc_script, exit_with. proc_not_rich. Qed.

Lemma proc_only_tools_not_rich argv : proc_only_tools argv <> Raise MarkupError.
Proof. revert argv. unfold proc_only_tools, exit_with. proc_not_rich. Qed.

Lemma proc_no_git_not_rich argv : proc_no_git argv <> Raise MarkupError.
Proof. revert argv. unfold proc_no_git, exit_with. proc_not_rich. Qed.

Lemma proc_interrupt_not_rich argv : proc_interrupt argv <> Raise MarkupError.
Proof. revert argv. unfold proc_interrupt, exit_with. proc_not_rich. Qed.

Lemma proc_denied_not_rich argv : proc_denied argv <> Raise MarkupError.
Proof. revert argv. unfold proc_denied, exit_with. proc_not_rich. Qed.

Lemma proc_brackets_not_rich argv : proc_brackets argv <> Raise MarkupError.
Proof. revert argv. unfold proc_brackets, exit_with. proc_not_rich. Qed.

(** A user who starts the installation and declines to go on after a
    failure. *)
Definition careful_user : Env := scripted proc_script proc_script_not_rich
  (fun p => match p with ContinueInstallation => true | ContinueDespiteFailure => false end)
  (fun p => match p with ContinueInstallation => "" | ContinueDespiteFailure => "n" end).

(** A user who answers yes to every question. *)
Definition eager_user : Env :=
  scripted proc_script proc_script_not_rich (fun _ => true) (fun _ => "y").

(** The same user in front of a clock. *)
Definition timed_user : Env :=
  clocked proc_script proc_script_not_rich (fun _ => true) (fun _ => "y").

(** A user who answers yes to every question, on a machine with nothing but
    the prerequisite tools. *)
Definition bare_machine : Env :=
  scripted proc_only_tools proc_only_tools_not_rich (fun _ => true) (fun _ => "yes").

(** A user who declines the question asked before the first step. *)
Definition cancelling_user : Env :=
  scripted proc_script proc_script_not_rich (fun _ => false) (fun _ => " No ").

(** A machine without Git. *)
Definition no_git : Env :=
  scripted proc_no_git proc_no_git_not_rich (fun _ => true) (fun _ => "y").

(** A machine without Node.js on which [npm] may not be executed. *)
Definition locked_down : Env :=
  scripted proc_denied proc_denied_not_rich (fun _ => true) (fun _ => "y").

(** A machine whose tools write bracketed paths, in front of a console that
    reads them as markup. *)
Definition bracket_machine : Env :=
  scripted_on rejects_closing_tag proc_brackets proc_brackets_not_rich
    (fun _ => true) (fun _ => "y").

(** A machine on which [b] is interrupted from the keyboard. *)
Definition interrupting_user : Env :=
  scripted proc_interrupt proc_interrupt_not_rich (fun _ => true) (fun _ => "y").

(** The state in which a scripted run starts. *)
Definition start_state (E : Env) (w : @World E) (t : @Instant E) (cs : list Command)
    : @State E :=
  mkState w [] (new_manager t cs).

(** The runs used as examples: A succeeds, B fails and the user declines to
    go on (with and without a step C behind B); the same steps with a user
    who goes on, B failing or hanging, in front of a clock; the default
    steps on a machine with nothing but the prerequisite tools; a cancelled
    run; a run without Git; a run stopped at the gate by an exception that
    the gate does not expect; runs in which rich rejects the output of a
    step. *)
Definition abc_state : @State careful_user :=
  start_state careful_user tt tt [step_A; step_B; step_C].

Definition halted_run (rich : bool) : result unit * @State careful_user :=
  main_on (E := careful_user) [step_A; step_B; step_C] rich tt.

Definition short_run (rich : bool) : result unit * @State careful_user :=
  main_on (E := careful_user) [step_A; step_B] rich tt.

Definition failing_run (rich : bool) : result unit * @State timed_user :=
  main_on (E := timed_user) [step_A; step_B; step_C] rich 0.

Definition hanging_run (rich : bool) : result unit * @State timed_user :=
  main_on (E := timed_user) [step_A; step_B_hanging; step_C] rich 0.

Definition bare_run (rich : bool) : result unit * @State bare_machine :=
  main (E := bare_machine) rich tt.

Definition cancelled_run (rich : bool) : result unit * @State cancelling_user :=
  main (E := cancelling_user) rich tt.

Definition guarded_state : @State careful_user :=
  start_state careful_user tt tt [step_guarded].

Definition guarded_run (rich : bool) : result unit * @State careful_user :=
  main_on (E := careful_user) [step_guarded] rich tt.

Definition interrupted_run (rich : bool) : result unit * @State interrupting_user :=
  main_on (E := interrupting_user) [step_A; step_B; step_C] rich tt.

Definition eager_state : @State eager_user :=
  start_state eager_user tt tt [step_A; step_B; step_C].

Definition denied_run (rich : bool) : result unit * @State locked_down :=
  main (E := locked_down) rich tt.

Definition bracket_state (cs : list Command) : @State bracket_machine :=
  start_state bracket_machine tt tt cs.

Definition version_run (rich : bool) : result unit * @State bracket_machine :=
  main_on (E := bracket_machine) [step_A; step_C] rich tt.

Definition complaint_run (rich : bool) : result unit * @State bracket_machine :=
  main_on (E := bracket_machine) [step_B_optional; step_C] rich tt.

(** ** How the methods change the state *)

Section Frames.
Context `{E : Env}.

(** [logs P s s']: the log of [s'] is the log of [s] followed by events
    that all satisfy [P]. *)
Definition logs (P : event Instant -> Prop) (s s' : State) : Prop :=
  exists evs, trace s' = trace s ++ evs /\ Forall P evs.

Definition keeps_self (s s' : State) : Prop := self s' = self s.

(** [m] moves every state along the relation [R]. *)
Definition moves {A} (R : State -> State -> Prop) (m : M A) : Prop :=
  forall s, R s (after m s).

(** A relation between states that the monad's combinators respect. *)
Class Preorder (R : State -> State -> Prop) : Prop := {
  pre_refl : forall s, R s s;
  pre_trans : forall s1 s2 s3, R s1 s2 -> R s2 s3 -> R s1 s3
}.

End Frames.

Section FrameLemmas.
Context `{E : Env}.

#[global] Instance logs_preorder (P : event Instant -> Prop) : Preorder (logs P).
Proof.
  split.
  - intro s. exists []. split; [now rewrite app_nil_r | constructor].
  - intros s1 s2 s3 [e1 [H1 F1]] [e2 [H2 F2]].
    exists (e1 ++ e2). split.
    + now rewrite H2, H1, app_assoc.
    + apply Forall_app. now split.
Qed.

#[global] Instance keeps_self_preorder : Preorder keeps_self.
Proof.
  split; unfold keeps_self.
  - reflexivity.
  - intros s1 s2 s3 H1 H2. now rewrite H2.
Qed.

Variable R : State -> State -> Prop.
Context {HR : Preorder R}.

Lemma moves_ret {A} (a : A) : moves R (ret a).
Proof. intro s. apply pre_refl. Qed.

Lemma moves_raise {A} (e : exn) : moves R (@raise _ A e).
Proof. intro s. apply pre_refl. Qed.

Lemma moves_bind {A B} (m : M A) (k : A -> M B) :
  moves R m -> (forall a, moves R (k a)) -> moves R (bind m k).
Proof.
  intros Hm Hk s. specialize (Hm s). unfold after, bind in *.
  destruct (m s) as [[a | e] s1]; simpl in *.
  - eapply pre_trans; [exact Hm | apply Hk].
  - exact Hm.
Qed.

Lemma moves_try_except {A} (body : M A) (handler : exn -> option (M A)) :
  moves R body ->
  (forall e h, handler e = Some h -> moves R h) ->
  moves R (try_except body handler).
Proof.
  intros Hb Hh s. specialize (Hb s). unfold after, try_except in *.
  destruct (body s) as [[a | e] s1]; simpl in *.
  - exact Hb.
  - destruct (handler e) as [h |] eqn:He; simpl.
    + eapply pre_trans; [exact Hb | apply (Hh e h He)].
    + exact Hb.
Qed.

Lemma moves_when (c : bool) (body : M unit) :
  moves R body -> moves R (when c body).
Proof. intro Hb. destruct c; simpl; [exact Hb | apply moves_ret]. Qed.

Lemma moves_get_self : moves R get_self.
Proof. intro s. apply pre_refl. Qed.

End FrameLemmas.

Section Primitives.
Context `{E : Env}.

Lemma keeps_log e : moves keeps_self (log e).
Proof. intro s. reflexivity. Qed.

Lemma keeps_print m : moves keeps_self (console_print m).
Proof. intro s. reflexivity. Qed.

Lemma keeps_print_markup b m : moves keeps_self (print_markup b m).
Proof. intro s. now destruct b. Qed.

Lemma keeps_run_subprocess argv t : moves keeps_self (run_subprocess argv t).
Proof.
  intro s. unfold after, run_subprocess, keeps_self.
  now destruct (subprocess_run argv t (world s)).
Qed.

Lemma keeps_ask_confirm p d : moves keeps_self (ask_confirm p d).
Proof.
  intro s. unfold after, ask_confirm, keeps_self.
  now destruct (Confirm_ask p d (world s)).
Qed.

Lemma keeps_ask_input p : moves keeps_self (ask_input p).
Proof.
  intro s. unfold after, ask_input, keeps_self.
  now destruct (input p (world s)).
Qed.

Lemma keeps_now : moves keeps_self now.
Proof.
  intro s. unfold after, now, keeps_self.
  now destruct (time_time (world s)).
Qed.

Variable P : event Instant -> Prop.

Lemma logs_one s s' e : trace s' = trace s ++ [e] -> P e -> logs P s s'.
Proof. intros Ht He. exists [e]. split; [exact Ht | now constructor]. Qed.

Lemma logs_none s s' : trace s' = trace s -> logs P s s'.
Proof. intro Ht. exists []. split; [now rewrite app_nil_r | constructor]. Qed.

Lemma logs_log e : P e -> moves (logs P) (log e).
Proof. intros He s. now apply logs_one with e. Qed.

Lemma logs_print m : P (EvPrint m) -> moves (logs P) (console_print m).
Proof. apply logs_log. Qed.

Lemma logs_print_markup b m : P (EvPrint m) -> moves (logs P) (print_markup b m).
Proof.
  intros He s. destruct b; [ now apply logs_none | now apply logs_print ].
Qed.

Lemma logs_run_subprocess argv t :
  (forall r, P (EvSpawn argv t r)) -> moves (logs P) (run_subprocess argv t).
Proof.
  intros He s. unfold after, run_subprocess.
  destruct (subprocess_run argv t (world s)) as [r w].
  now apply logs_one with (EvSpawn argv t r).
Qed.

Lemma logs_ask_confirm p d :
  (forall r, P (EvConfirm p d r)) -> moves (logs P) (ask_confirm p d).
Proof.
  intros He s. unfold after, ask_confirm.
  destruct (Confirm_ask p d (world s)) as [r w].
  now apply logs_one with (EvConfirm p d r).
Qed.

Lemma logs_ask_input p :
  (forall r, P (EvInput p r)) -> moves (logs P) (ask_input p).
Proof.
  intros He s. unfold after, ask_input.
  destruct (input p (world s)) as [r w].
  now apply logs_one with (EvInput p r).
Qed.

Lemma logs_now : moves (logs P) now.
Proof.
  intro s. unfold after, now.
  destruct (time_time (world s)) as [t w]. now apply logs_none.
Qed.

Lemma logs_set_self m : moves (logs P) (set_self m).
Proof. intro s. now apply logs_none. Qed.

End Primitives.

(** Takes a method apart along the combinators it is built from. *)
Ltac moves_step :=
  first
    [ progress unfold print_child_output, print_exception
    | apply moves_ret; exact _
    | apply moves_raise; exact _
    | apply moves_get_self; exact _
    | apply keeps_print | apply keeps_print_markup | apply keeps_log
    | apply keeps_run_subprocess
    | apply keeps_ask_confirm | apply keeps_ask_input | apply keeps_now
    | apply logs_now | apply logs_set_self
    | apply logs_print; simpl; tauto
    | apply logs_print_markup; simpl; tauto
    | apply logs_run_subprocess; intro; simpl; tauto
    | apply logs_ask_confirm; intro; simpl; tauto
    | apply logs_ask_input; intro; simpl; tauto
    | apply moves_when; [ exact _ | ]
    | apply moves_bind; [ exact _ | | intro ]
    | match goal with
      | |- moves _ (if ?b then _ else _) => destruct b
      | |- moves _ (match ?l with [] => _ | _ :: _ => _ end) => destruct l
      end ].

Ltac moves_handler :=
  let e := fresh "e" in
  let h := fresh "h" in
  let He := fresh "He" in
  intros e h He; destruct e; simpl in He;
  try discriminate He; injection He as <-; repeat moves_step.

Ltac moves_auto :=
  repeat first [ moves_step | apply moves_try_except; [ exact _ | | moves_handler ] ].

Section MethodFrames.
Context `{E : Env}.

(** Neither a question nor a line of the summary. *)
Definition silent (ev : event Instant) : Prop :=
  is_prompt ev = false /\ forall n, summary_names n ev = false.

(** [run_command] changes nothing in the manager. *)
Lemma run_command_keeps_self rich command :
  moves keeps_self (run_command rich command).
Proof. unfold run_command. destruct rich; moves_auto. Qed.

(** [run_command] asks nothing and prints no summary. *)
Lemma run_command_silent rich command :
  moves (logs silent) (run_command rich command).
Proof. unfold run_command, silent. destruct rich; moves_auto. Qed.

End MethodFrames.

Section LoopLemmas.
Context `{E : Env}.

(** Neither a declined continue question nor a line of the summary. *)
Definition calm (ev : event Instant) : Prop :=
  declined ev = false /\ forall n, summary_names n ev = false.

Lemma silent_calm ev : silent ev -> calm ev.
Proof.
  intros [Hp Hs]. split; [ | exact Hs ].
  destruct ev; simpl in *; try reflexivity; discriminate.
Qed.

Lemma logs_weaken (P Q : event Instant -> Prop) s s' :
  (forall ev, P ev -> Q ev) -> logs P s s' -> logs Q s s'.
Proof.
  intros HPQ [evs [Ht Hf]]. exists evs. split; [exact Ht | ].
  eapply Forall_impl; [ | exact Hf ]. exact HPQ.
Qed.

Lemma calm_not_declined evs : Forall calm evs -> existsb declined evs = false.
Proof.
  induction 1 as [ | ev evs' [Hd _] _ IH ]; simpl; [ reflexivity | ].
  now rewrite Hd, IH.
Qed.

Lemma calm_not_in_summary n evs :
  Forall calm evs -> existsb (summary_names n) evs = false.
Proof.
  induction 1 as [ | ev evs' [_ Hs] _ IH ]; simpl; [ reflexivity | ].
  now rewrite Hs, IH.
Qed.

Lemma logs_calm_halted s s' : logs calm s s' -> halted (trace s') = halted (trace s).
Proof.
  intros [evs [Ht Hf]]. unfold halted.
  now rewrite Ht, existsb_app, (calm_not_declined _ Hf), orb_false_r.
Qed.

Lemma logs_calm_in_summary n s s' :
  logs calm s s' -> in_summary n (trace s') = in_summary n (trace s).
Proof.
  intros [evs [Ht Hf]]. unfold in_summary.
  now rewrite Ht, existsb_app, (calm_not_in_summary n _ Hf), orb_false_r.
Qed.

(** What a method returned tells the state it left. *)
Lemma after_eq {A} (m : M A) s r s' : m s = (r, s') -> after m s = s'.
Proof. intro H. unfold after. now rewrite H. Qed.

Lemma run_command_self rich command s r s' :
  run_command rich command s = (r, s') -> self s' = self s.
Proof.
  intro H. rewrite <- (after_eq _ _ _ _ H). apply run_command_keeps_self.
Qed.

Lemma run_command_calm rich command s r s' :
  run_command rich command s = (r, s') -> logs calm s s'.
Proof.
  intro H. rewrite <- (after_eq _ _ _ _ H).
  eapply logs_weaken; [ exact silent_calm | apply run_command_silent ].
Qed.

(** The only [Exception] that [run_command] lets through is the
    [MarkupError] of its own lines on the rich path. *)
Lemma run_command_raises rich command s e s' :
  run_command rich command s = (Raise e, s') ->
  is_Exception e = false \/ (rich = true /\ e = MarkupError).
Proof.
  unfold run_command, bind, try_except, when, print_child_output, print_exception,
    print_markup, console_print, log, run_subprocess, ret, raise.
  destruct rich; simpl.
  - destruct (truthy_opt_list (check_cmd command)); simpl.
    + destruct (subprocess_run _ 10 (world s)) as [[p | e0] w]; simpl.
      * destruct (returncode p =? 0)%Z; simpl.
        -- destruct (subprocess_run (cmd command) 300 w) as [[q | e1] w1]; simpl.
           ++ destruct (returncode q =? 0)%Z; simpl;
                [ destruct (truthy_str (strip (stdout q)))
                | destruct (truthy_str (stderr q)) ]; simpl;
                try destruct (rich_rejects _); simpl;
                intro H; inversion H; auto.
           ++ destruct e1; simpl;
                try destruct (truthy_opt_str (install_hint command)); simpl;
                intro H; inversion H; auto.
        -- destruct (truthy_opt_str (install_hint command)); simpl; discriminate.
      * destruct e0; simpl;
          try destruct (truthy_opt_str (install_hint command)); simpl;
          intro H; inversion H; auto.
    + destruct (subprocess_run (cmd command) 300 (world s)) as [[q | e1] w1]; simpl.
      * destruct (returncode q =? 0)%Z; simpl;
          [ destruct (truthy_str (strip (stdout q)))
          | destruct (truthy_str (stderr q)) ]; simpl;
          try destruct (rich_rejects _); simpl;
          intro H; inversion H; auto.
      * destruct e1; simpl;
          try destruct (truthy_opt_str (install_hint command)); simpl;
          intro H; inversion H; auto.
  - destruct (subprocess_run (cmd command) 300 (world s)) as [[q | e1] w1]; simpl.
    + destruct (returncode q =? 0)%Z; simpl;
        [ | destruct (truthy_str (stderr q)) ]; simpl; discriminate.
    + destruct e1; simpl; intro H; inversion H; auto.
Qed.

(** The answer to the continue question, as the log records it. *)
Lemma ask_continue_spec rich s b s' :
  ask_continue rich s = (Ok b, s') ->
  self s' = self s /\
  exists ev, trace s' = trace s ++ [ev] /\ declined ev = negb b /\
             (forall n, summary_names n ev = false).
Proof.
  unfold ask_continue, ask_confirm, ask_input, bind, ret.
  destruct rich.
  - destruct (Confirm_ask ContinueDespiteFailure false (world s)) as [r w].
    intro H. inversion H; subst. simpl. split; [ reflexivity | ].
    eexists. split; [ reflexivity | ]. simpl. split; [ now destruct b | reflexivity ].
  - destruct (input ContinueDespiteFailure (world s)) as [[r | e] w]; simpl;
      [ | discriminate ].
    intro H. inversion H; subst. simpl. split; [ reflexivity | ].
    eexists. split; [ reflexivity | ]. simpl. split; reflexivity.
Qed.

(** One turn of the loop. *)
Lemma run_steps_cons rich total i command rest s :
  run_steps rich total i (command :: rest) s =
  match run_command rich command (at_step total i command s) with
  | (Ok true, s1) =>
      run_steps rich total (S i) rest (after (append_successful (name command)) s1)
  | (Ok false, s1) =>
      if required command then
        match ask_continue rich (at_question command s1) with
        | (Ok true, s2) => run_steps rich total (S i) rest s2
        | (Ok false, s2) => (Ok tt, s2)
        | (Raise e, s2) => (Raise e, s2)
        end
      else run_steps rich total (S i) rest (after (append_failed (name command)) s1)
  | (Raise e, s1) => (Raise e, s1)
  end.
Proof.
  simpl.
  unfold bind, console_print, log, append_successful, append_failed, get_self,
    set_self, at_step, at_question, after, ret.
  simpl.
  destruct (run_command rich command _) as [[[ | ] | e] s1]; simpl; try reflexivity.
  destruct (required command); [ | reflexivity ].
  destruct (ask_continue rich _) as [[[ | ] | e] s2]; reflexivity.
Qed.

Lemma Passes_run_steps rich total i pre s vs s1 :
  Passes rich total i pre s vs s1 ->
  forall rest,
    run_steps rich total i (pre ++ rest) s
    = run_steps rich total (List.length pre + i) rest s1.
Proof.
  induction 1 as [ i s | i c pre s sa vs s' Hc _ IH | i c pre s sa vs s' Hc Hr _ IH
                 | i c pre s sa sb vs s' Hc Hr Hq _ IH ]; intro rest.
  - reflexivity.
  - rewrite <- app_comm_cons, run_steps_cons, Hc, IH. simpl. f_equal. lia.
  - rewrite <- app_comm_cons, run_steps_cons, Hc, Hr, IH. simpl. f_equal. lia.
  - rewrite <- app_comm_cons, run_steps_cons, Hc, Hr, Hq, IH. simpl. f_equal. lia.
Qed.

(** What passing the steps [cs] does to the manager. *)
Lemma Passes_self rich total i cs s vs s' :
  Passes rich total i cs s vs s' ->
  successful_commands (self s')
  = successful_commands (self s) ++ names_with true cs vs /\
  failed_commands (self s') = failed_commands (self s) ++ names_with false cs vs /\
  skipped_commands (self s') = skipped_commands (self s) /\
  commands (self s') = commands (self s) /\
  start_time (self s') = start_time (self s) /\
  List.length vs = List.length cs.
Proof.
  induction 1 as [ i s | i c pre s sa vs s' Hc _ IH | i c pre s sa vs s' Hc Hr _ IH
                 | i c pre s sa sb vs s' Hc Hr Hq _ IH ].
  - simpl. now rewrite !app_nil_r.
  - apply run_command_self in Hc.
    destruct IH as (H1 & H2 & H3 & H4 & H5 & H6).
    simpl in *. rewrite H1, H2, H3, H4, H5, H6, Hc. simpl.
    rewrite <- app_assoc. simpl. repeat split; reflexivity.
  - apply run_command_self in Hc.
    destruct IH as (H1 & H2 & H3 & H4 & H5 & H6).
    simpl in *. rewrite H1, H2, H3, H4, H5, H6, Hc. simpl.
    rewrite <- app_assoc. simpl. repeat split; reflexivity.
  - apply run_command_self in Hc. apply ask_continue_spec in Hq.
    destruct Hq as [Hq _].
    destruct IH as (H1 & H2 & H3 & H4 & H5 & H6).
    simpl in *. rewrite H1, H2, H3, H4, H5, H6, Hq. simpl. rewrite Hc. simpl.
    rewrite <- app_assoc. simpl. repeat split; reflexivity.
Qed.

Lemma at_step_calm total i command s : logs calm s (at_step total i command s).
Proof. apply logs_one with (EvPrint (MsgStep i total (name command))); now split. Qed.

Lemma at_question_calm command s : logs calm s (at_question command s).
Proof.
  apply logs_one with (EvPrint (MsgCriticalFailure (name command))); now split.
Qed.

(** Passing steps leaves no declined question and no summary in the log. *)
Lemma Passes_calm rich total i cs s vs s' :
  Passes rich total i cs s vs s' -> logs calm s s'.
Proof.
  induction 1 as [ i s | i c pre s sa vs s' Hc _ IH | i c pre s sa vs s' Hc Hr _ IH
                 | i c pre s sa sb vs s' Hc Hr Hq _ IH ].
  - apply pre_refl.
  - eapply pre_trans; [ apply at_step_calm | ].
    eapply pre_trans; [ apply (run_command_calm _ _ _ _ _ Hc) | ].
    eapply pre_trans; [ | exact IH ]. now apply logs_none.
  - eapply pre_trans; [ apply at_step_calm | ].
    eapply pre_trans; [ apply (run_command_calm _ _ _ _ _ Hc) | ].
    eapply pre_trans; [ | exact IH ]. now apply logs_none.
  - eapply pre_trans; [ apply at_step_calm | ].
    eapply pre_trans; [ apply (run_command_calm _ _ _ _ _ Hc) | ].
    eapply pre_trans; [ apply at_question_calm | ].
    eapply pre_trans; [ | exact IH ].
    destruct (ask_continue_spec _ _ _ _ Hq) as [_ [ev [Ht [Hd Hs]]]].
    apply logs_one with ev; [ exact Ht | now split ].
Qed.

End LoopLemmas.

Section StepLemmas.
Context `{E : Env}.

Ltac unfold_run_command :=
  unfold run_command, bind, try_except, when, print_child_output, print_exception,
    print_markup, console_print, log, run_subprocess, ret, raise; simpl.

Lemma rendered_plain ms : rendered false ms = true.
Proof. reflexivity. Qed.

Lemma rendered_of_renders_all rich ms : renders_all rich -> rendered rich ms = true.
Proof.
  unfold renders_all, rendered. destruct rich; [ | reflexivity ].
  intro H. specialize (H eq_refl). simpl.
  induction ms as [ | m ms IH ]; simpl; [ reflexivity | ].
  rewrite H. exact IH.
Qed.

Lemma rendered_one m : rendered true [m] = true -> rich_rejects m = false.
Proof.
  unfold rendered. simpl. rewrite orb_false_r. apply negb_true_iff.
Qed.

(** What a child process can come back with. *)
Lemma not_rich_answer argv t w w' : subprocess_run argv t w <> (Raise MarkupError, w').
Proof.
  intro H. apply (subprocess_run_not_rich argv t w). now rewrite H.
Qed.

(** What [run_command] returns once it gets to the main invocation, when
    the console prints the line that shows its output. *)
Lemma run_command_invocation rich command s w1 r w2 :
  reaches_invocation rich command (world s) w1 ->
  subprocess_run (cmd command) 300 w1 = (r, w2) ->
  rendered rich (output_line r) = true ->
  exists s',
    run_command rich command s
    = (match r with
       | Ok p => Ok (returncode p =? 0)%Z
       | Raise e => if is_Exception e then Ok false else Raise e
       end, s') /\
    world s' = w2.
Proof.
  unfold reaches_invocation. intros Hreach Hrun Hshown. unfold_run_command.
  destruct rich; simpl in *.
  - destruct (truthy_opt_list (check_cmd command)); simpl in *.
    + destruct Hreach as [p [Hp Hrc]]. rewrite Hp. simpl. rewrite Hrc. simpl.
      rewrite Hrun. simpl. destruct r as [q | e]; simpl.
      * unfold output_line in Hshown.
        destruct (returncode q =? 0)%Z; simpl;
          [ destruct (truthy_str (strip (stdout q)))
          | destruct (truthy_str (stderr q)) ]; simpl;
          try rewrite (rendered_one _ Hshown); simpl;
          eexists; split; reflexivity.
      * destruct e; simpl;
          try destruct (truthy_opt_str (install_hint command)); simpl;
          first [ eexists; split; reflexivity
                | exfalso; exact (not_rich_answer _ _ _ _ Hrun) ].
    + subst w1. rewrite Hrun. simpl. destruct r as [q | e]; simpl.
      * unfold output_line in Hshown.
        destruct (returncode q =? 0)%Z; simpl;
          [ destruct (truthy_str (strip (stdout q)))
          | destruct (truthy_str (stderr q)) ]; simpl;
          try rewrite (rendered_one _ Hshown); simpl;
          eexists; split; reflexivity.
      * destruct e; simpl;
          try destruct (truthy_opt_str (install_hint command)); simpl;
          first [ eexists; split; reflexivity
                | exfalso; exact (not_rich_answer _ _ _ _ Hrun) ].
  - subst w1. rewrite Hrun. simpl. destruct r as [q | e]; simpl.
    + destruct (returncode q =? 0)%Z; simpl;
        [ | destruct (truthy_str (stderr q)) ]; simpl; eexists; split; reflexivity.
    + destruct e; simpl; eexists; split; reflexivity.
Qed.

(** Once [run_command] gets to the main invocation, the world it leaves is
    the one that the invocation has left, whatever it returns or raises. *)
Lemma run_command_world rich command s w1 r w2 x s' :
  reaches_invocation rich command (world s) w1 ->
  subprocess_run (cmd command) 300 w1 = (r, w2) ->
  run_command rich command s = (x, s') ->
  world s' = w2 /\
  exists evs, trace s' = trace s ++ evs /\ In (EvSpawn (cmd command) 300 r) evs.
Proof.
  unfold reaches_invocation. intros Hreach Hrun. unfold_run_command.
  destruct rich; simpl in *.
  - destruct (truthy_opt_list (check_cmd command)); simpl in *.
    + destruct Hreach as [p [Hp Hrc]]. rewrite Hp. simpl. rewrite Hrc. simpl.
      rewrite Hrun. simpl. destruct r as [q | e]; simpl.
      * destruct (returncode q =? 0)%Z; simpl;
          [ destruct (truthy_str (strip (stdout q)))
          | destruct (truthy_str (stderr q)) ]; simpl;
          try destruct (rich_rejects _); simpl;
          intro H; inversion H; subst; clear H; simpl;
          (split; [ reflexivity | ]); eexists;
          (split; [ repeat rewrite <- app_assoc; simpl; reflexivity | ]);
          simpl; tauto.
      * destruct e; simpl;
          try destruct (truthy_opt_str (install_hint command)); simpl;
          intro H; inversion H; subst; clear H; simpl;
          (split; [ reflexivity | ]); eexists;
          (split; [ repeat rewrite <- app_assoc; simpl; reflexivity | ]);
          simpl; tauto.
    + subst w1. rewrite Hrun. simpl. destruct r as [q | e]; simpl.
      * destruct (returncode q =? 0)%Z; simpl;
          [ destruct (truthy_str (strip (stdout q)))
          | destruct (truthy_str (stderr q)) ]; simpl;
          try destruct (rich_rejects _); simpl;
          intro H; inversion H; subst; clear H; simpl;
          (split; [ reflexivity | ]); eexists;
          (split; [ repeat rewrite <- app_assoc; simpl; reflexivity | ]);
          simpl; tauto.
      * destruct e; simpl;
          try destruct (truthy_opt_str (install_hint command)); simpl;
          intro H; inversion H; subst; clear H; simpl;
          (split; [ reflexivity | ]); eexists;
          (split; [ repeat rewrite <- app_assoc; simpl; reflexivity | ]);
          simpl; tauto.
  - subst w1. rewrite Hrun. simpl. destruct r as [q | e]; simpl.
    + destruct (returncode q =? 0)%Z; simpl;
        [ | destruct (truthy_str (stderr q)) ]; simpl;
        intro H; inversion H; subst; clear H; simpl;
        (split; [ reflexivity | ]); eexists;
        (split; [ repeat rewrite <- app_assoc; simpl; reflexivity | ]);
        simpl; tauto.
    + destruct e; simpl;
        intro H; inversion H; subst; clear H; simpl;
        (split; [ reflexivity | ]); eexists;
        (split; [ repeat rewrite <- app_assoc; simpl; reflexivity | ]);
        simpl; tauto.
Qed.

(** The rich path with a precheck that exits non-zero: the step fails, the
    hint is printed when there is one, and nothing else is spawned. *)
Lemma run_command_precheck_fails command s argv p w1 :
  check_cmd command = Some argv ->
  argv <> [] ->
  subprocess_run argv 10 (world s) = (Ok p, w1) ->
  returncode p <> 0%Z ->
  run_command true command s
  = (Ok false,
     mkState w1
       (trace s ++ [EvPrint (MsgProgress (description command));
                    EvSpawn argv 10 (Ok p)]
                ++ (if truthy_opt_str (install_hint command)
                    then [EvPrint (MsgToolNotFound
                                     (match install_hint command with
                                      | Some h => h | None => "" end))]
                    else [])
                ++ [EvPrint (MsgFailedWithExitCode (name command) (returncode p))])
       (self s)).
Proof.
  intros Hc Hne Hrun Hrc. unfold_run_command. rewrite Hc.
  destruct argv as [ | a argv' ]; [ congruence | ]. simpl.
  rewrite Hrun. simpl.
  apply Z.eqb_neq in Hrc. rewrite Hrc. simpl.
  destruct (truthy_opt_str (install_hint command)); simpl;
    rewrite <- !app_assoc; reflexivity.
Qed.

(** Without a precheck the two paths return the same, when rich prints the
    line that shows the output of the invocation. *)
Lemma run_command_paths_agree command s :
  truthy_opt_list (check_cmd command) = false ->
  rendered true (output_line (fst (subprocess_run (cmd command) 300 (world s)))) = true ->
  fst (run_command true command s) = fst (run_command false command s).
Proof.
  intros Hc Hshown. unfold_run_command. rewrite Hc. simpl.
  destruct (subprocess_run (cmd command) 300 (world s)) as [[q | e] w] eqn:Hrun;
    simpl in *.
  - destruct (returncode q =? 0)%Z; simpl;
      [ destruct (truthy_str (strip (stdout q)))
      | destruct (truthy_str (stderr q)) ]; simpl;
      try rewrite (rendered_one _ Hshown); reflexivity.
  - destruct e; simpl; try destruct (truthy_opt_str (install_hint command));
      first [ reflexivity | exfalso; exact (not_rich_answer _ _ _ _ Hrun) ].
Qed.

Lemma at_step_world total i command s : world (at_step total i command s) = world s.
Proof. reflexivity. Qed.

Lemma at_step_self total i command s : self (at_step total i command s) = self s.
Proof. reflexivity. Qed.

Lemma at_question_world command s : world (at_question command s) = world s.
Proof. reflexivity. Qed.

(** The continue question, answered as the world says. *)
Lemma ask_continue_answers rich go_on s w' :
  answers_continue rich go_on (world s) w' ->
  exists s', ask_continue rich s = (Ok go_on, s') /\ world s' = w'.
Proof.
  unfold answers_continue, ask_continue, ask_confirm, ask_input, bind, ret.
  destruct rich.
  - intro H. rewrite H. eexists. split; reflexivity.
  - intros [response [H Hr]]. rewrite H. subst go_on.
    eexists. split; reflexivity.
Qed.

(** A failed optional step: the loop records it and goes on. *)
Lemma optional_failure_goes_on rich total i command rest s s1 :
  required command = false ->
  run_command rich command (at_step total i command s) = (Ok false, s1) ->
  run_steps rich total i (command :: rest) s
  = run_steps rich total (S i) rest (after (append_failed (name command)) s1).
Proof. intros Hr Hc. now rewrite run_steps_cons, Hc, Hr. Qed.

(** Every step exiting 0 makes the loop pass them all as successful, when
    the console prints what they have written. *)
Lemma all_exit_zero_Passes rich total cs :
  renders_all rich ->
  forall i s,
    all_exit_zero rich cs (world s) ->
    exists s', Passes rich total i cs s (repeat true (List.length cs)) s'.
Proof.
  intro Hshown. induction cs as [ | c rest IH ]; intros i s Hall.
  - exists s. constructor.
  - destruct Hall as [w' [[w1 [p [Hreach [Hrun Hrc]]]] Hrest]].
    destruct (run_command_invocation rich c (at_step total i c s) w1 (Ok p) w'
                Hreach Hrun (rendered_of_renders_all _ _ Hshown)) as [s1 [Hc Hw]].
    rewrite Hrc in Hc. simpl in Hc.
    destruct (IH (S i) (after (append_successful (name c)) s1)) as [s' HP].
    + simpl. now rewrite Hw.
    + exists s'. simpl. eapply Passes_success; eassumption.
Qed.

Lemma names_with_all_true cs :
  names_with true cs (repeat true (List.length cs)) = map name cs /\
  names_with false cs (repeat true (List.length cs)) = [].
Proof.
  induction cs as [ | c rest [IH1 IH2] ]; simpl; [ now split | ].
  now rewrite IH1, IH2.
Qed.

Lemma Passes_all rich total i cs s vs s' :
  Passes rich total i cs s vs s' -> run_steps rich total i cs s = (Ok tt, s').
Proof.
  intro HP. pose proof (Passes_run_steps _ _ _ _ _ _ _ HP []) as H.
  now rewrite app_nil_r in H.
Qed.

End StepLemmas.

Section ListFacts.

Lemma NoDup_app_disjoint {A} (l1 l2 : list A) x :
  NoDup (l1 ++ l2) -> In x l1 -> In x l2 -> False.
Proof.
  induction l1 as [ | a l1 IH ]; simpl; intros Hnd H1 H2; [ contradiction | ].
  inversion Hnd as [ | ? ? Hna Hnd' ]; subst.
  destruct H1 as [-> | H1].
  - apply Hna. apply in_or_app. now right.
  - now apply IH.
Qed.

Lemma names_with_incl v cs : forall vs n, In n (names_with v cs vs) -> In n (map name cs).
Proof.
  induction cs as [ | c rest IH ]; intros [ | b vs ] n; simpl; try contradiction.
  destruct (Bool.eqb b v); simpl; [ intros [-> | H] | intro H ]; auto.
  - right. now apply (IH vs).
  - right. now apply (IH vs).
Qed.

Lemma str_in_In x xs : str_in x xs = true -> In x xs.
Proof.
  unfold str_in. rewrite existsb_exists. intros [y [Hy Heq]].
  apply String.eqb_eq in Heq. now subst.
Qed.

(** The names of the steps by verdict, counted. *)
Lemma count_names_with cs : forall vs n,
  List.length vs = List.length cs ->
  count_occ string_dec (names_with true cs vs ++ names_with false cs vs) n
  = count_occ string_dec (map name cs) n.
Proof.
  induction cs as [ | c rest IH ]; intros [ | b vs ] n Hlen; simpl in *;
    try discriminate; [ reflexivity | ].
  injection Hlen as Hlen. specialize (IH vs n Hlen).
  rewrite count_occ_app in *.
  destruct b; simpl; destruct (string_dec (name c) n); simpl; try lia.
  all: rewrite count_occ_app; simpl; destruct (string_dec (name c) n); simpl;
    try contradiction; try lia.
Qed.

End ListFacts.

Section HaltLemmas.
Context `{E : Env}.

(** The state in which the loop is left when the user declines after the
    failure of [command], the steps [pre] having been passed. *)
Lemma halting_step_state rich total i j pre command s vs s1 s2 s' :
  Passes rich total i pre s vs s1 ->
  run_command rich command (at_step total j command s1) = (Ok false, s2) ->
  ask_continue rich (at_question command s2) = (Ok false, s') ->
  successful_commands (self s')
  = successful_commands (self s) ++ names_with true pre vs /\
  failed_commands (self s')
  = failed_commands (self s) ++ names_with false pre vs ++ [name command] /\
  skipped_commands (self s') = skipped_commands (self s) /\
  halted (trace s') = true /\
  forall n, in_summary n (trace s') = in_summary n (trace s).
Proof.
  intros HP Hc Hq.
  pose proof (run_command_self _ _ _ _ _ Hc) as Hself2.
  destruct (ask_continue_spec _ _ _ _ Hq) as [Hself' [ev [Htr [Hd Hsum]]]].
  destruct (Passes_self _ _ _ _ _ _ _ HP) as (H1 & H2 & H3 & _).
  split; [ rewrite Hself'; simpl; rewrite Hself2; simpl; exact H1 | ].
  split; [ rewrite Hself'; simpl; rewrite Hself2; simpl;
           now rewrite H2, <- app_assoc | ].
  split; [ rewrite Hself'; simpl; rewrite Hself2; simpl; exact H3 | ].
  split.
  - unfold halted. rewrite Htr, existsb_app. cbn [existsb]. rewrite Hd.
    apply orb_true_r.
  - intro n. unfold in_summary at 1. rewrite Htr, existsb_app. cbn [existsb].
    rewrite Hsum, !orb_false_r.
    change (in_summary n (trace (at_question command s2)) = in_summary n (trace s)).
    rewrite (logs_calm_in_summary n s2 _ (at_question_calm command s2)).
    rewrite (logs_calm_in_summary n _ s2 (run_command_calm _ _ _ _ _ Hc)).
    rewrite (logs_calm_in_summary n s1 _ (at_step_calm total j command s1)).
    apply logs_calm_in_summary. exact (Passes_calm _ _ _ _ _ _ _ HP).
Qed.

(** With unique names, no step after the halting one is named in the
    sequences built from the steps up to it. *)
Lemma later_names_absent pre command post vs c :
  NoDup (map name (pre ++ command :: post)) ->
  In c post ->
  ~ In (name c)
      (names_with true pre vs ++ (names_with false pre vs ++ [name command]) ++ []).
Proof.
  intros Hnd Hin Habs. rewrite app_nil_r in Habs.
  rewrite map_app in Hnd. simpl in Hnd.
  assert (Hpost : In (name c) (map name post)) by now apply in_map.
  assert (Hcut : NoDup ((map name pre ++ [name command]) ++ map name post)).
  { now rewrite <- app_assoc. }
  apply (NoDup_app_disjoint _ _ (name c) Hcut); [ | exact Hpost ].
  apply in_app_or in Habs. destruct Habs as [Ha | Ha].
  - apply in_or_app. left. eapply names_with_incl; exact Ha.
  - apply in_app_or in Ha. destruct Ha as [Ha | Ha].
    + apply in_or_app. left. eapply names_with_incl; exact Ha.
    + apply in_or_app. now right.
Qed.

End HaltLemmas.

(** ** The step loop: claims about the classification *)

Section LoopClaims.
Context `{E : Env}.

(** When the invocation of every step (and its precheck, where
    [run_command] runs one) exits 0 and the console prints what the steps
    have written, the loop started on a manager with empty outcome sequences
    returns with [successful_commands] equal to the step names in the
    declared order and with [failed_commands] and [skipped_commands]
    empty. *)
Lemma all_steps_succeed_when_shown rich total i cs s :
  renders_all rich ->
  fresh (self s) ->
  all_exit_zero rich cs (world s) ->
  exists s',
    run_steps rich total i cs s = (Ok tt, s') /\
    successful_commands (self s') = map name cs /\
    failed_commands (self s') = [] /\
    skipped_commands (self s') = [].
Proof.
  intros Hshown (Hs & Hf & Hk) Hall.
  destruct (all_exit_zero_Passes rich total cs Hshown i s Hall) as [s' HP].
  exists s'. split; [ exact (Passes_all _ _ _ _ _ _ _ HP) | ].
  destruct (Passes_self _ _ _ _ _ _ _ HP) as (H1 & H2 & H3 & _).
  destruct (names_with_all_true cs) as [Ht Hfa].
  rewrite H1, H2, H3, Hs, Hf, Hk, Ht, Hfa. now repeat split.
Qed.

(** A step with [required = False] whose invocation exits non-zero, with
    error output that the console prints, makes [run_command] return
    [False]; the loop appends its name to [failed_commands], asks no
    question, and goes on with the remaining steps. *)
Lemma optional_failure_when_shown rich total i command rest s w1 p w2 :
  required command = false ->
  reaches_invocation rich command (world s) w1 ->
  subprocess_run (cmd command) 300 w1 = (Ok p, w2) ->
  returncode p <> 0%Z ->
  rendered rich (output_line (Ok p)) = true ->
  exists s1,
    run_command rich command (at_step total i command s) = (Ok false, s1) /\
    let s2 := after (append_failed (name command)) s1 in
    run_steps rich total i (command :: rest) s = run_steps rich total (S i) rest s2 /\
    failed_commands (self s2) = failed_commands (self s) ++ [name command] /\
    successful_commands (self s2) = successful_commands (self s) /\
    skipped_commands (self s2) = skipped_commands (self s) /\
    world s2 = w2 /\
    exists evs, trace s2 = trace s ++ evs /\ Forall (fun ev => is_prompt ev = false) evs.
Proof.
  intros Hreq Hreach Hrun Hrc Hshown.
  destruct (run_command_invocation rich command (at_step total i command s) w1
              (Ok p) w2 Hreach Hrun Hshown) as [s1 [Hc Hw]].
  apply Z.eqb_neq in Hrc. rewrite Hrc in Hc.
  exists s1. split; [ exact Hc | ].
  pose proof (run_command_self _ _ _ _ _ Hc) as Hself.
  split; [ now apply optional_failure_goes_on | ].
  simpl. rewrite Hself. simpl. repeat split; try reflexivity; try exact Hw.
  assert (HL : logs (fun ev => is_prompt ev = false) s s1).
  { apply (pre_trans s (at_step total i command s) s1).
    - apply logs_one with (EvPrint (MsgStep i total (name command))); reflexivity.
    - rewrite <- (after_eq _ _ _ _ Hc).
      eapply logs_weaken; [ | apply run_command_silent ].
      now intros ev [Hp _]. }
  exact HL.
Qed.


End LoopClaims.

(** ** The whole run *)

Section RunLemmas.
Context `{E : Env}.

Lemma bind_Ok_inv {A B} (m : M A) (k : A -> M B) s b s' :
  bind m k s = (Ok b, s') ->
  exists a s1, m s = (Ok a, s1) /\ k a s1 = (Ok b, s').
Proof.
  unfold bind. destruct (m s) as [[a | e] s1]; [ | discriminate ].
  intro H. now exists a, s1.
Qed.

Lemma check_prerequisites_keeps_self rich :
  moves keeps_self (check_prerequisites rich).
Proof.
  unfold check_prerequisites, prerequisites. simpl check_each.
  unfold check_prerequisite. moves_auto.
Qed.

Lemma check_prerequisites_calm rich : moves (logs calm) (check_prerequisites rich).
Proof.
  unfold check_prerequisites, prerequisites, calm. simpl check_each.
  unfold check_prerequisite. moves_auto.
Qed.

Lemma confirm_start_keeps_self rich : moves keeps_self (confirm_start rich).
Proof. unfold confirm_start, sys_exit. destruct rich; moves_auto. Qed.

Lemma confirm_start_calm rich : moves (logs calm) (confirm_start rich).
Proof. unfold confirm_start, sys_exit, calm. destruct rich; moves_auto. Qed.

(** A run that returns has got through the gate and the first question,
    then through the loop and the summary. *)
Lemma run_installation_returns rich s0 s' :
  run_installation rich s0 = (Ok tt, s') ->
  exists s1 s2,
    self s1 = self s0 /\
    logs calm s0 s1 /\
    run_steps rich (List.length (commands (self s0))) 1 (commands (self s0)) s1
    = (Ok tt, s2) /\
    print_summary rich s2 = (Ok tt, s').
Proof.
  unfold run_installation. intro H.
  apply bind_Ok_inv in H as [? [sa [Ha H]]].
  apply bind_Ok_inv in H as [ok [sb [Hb H]]].
  apply bind_Ok_inv in H as [? [sc [Hc H]]].
  apply bind_Ok_inv in H as [? [sd [Hd H]]].
  apply bind_Ok_inv in H as [m [se [He H]]].
  apply bind_Ok_inv in H as [? [sf [Hf H]]].
  apply bind_Ok_inv in H as [[] [sg [Hg H]]].
  unfold get_self in He. injection He as <- <-.
  assert (Hc' : sc = sb).
  { destruct ok; simpl in Hc; unfold ret, sys_exit, raise in Hc;
      [ now injection Hc | discriminate ]. }
  subst sc.
  assert (K : keeps_self s0 sf).
  { apply (pre_trans s0 sa sf).
    { rewrite <- (after_eq _ _ _ _ Ha). apply keeps_print. }
    apply (pre_trans sa sb sf).
    { rewrite <- (after_eq _ _ _ _ Hb). apply check_prerequisites_keeps_self. }
    apply (pre_trans sb sd sf).
    { rewrite <- (after_eq _ _ _ _ Hd). apply confirm_start_keeps_self. }
    rewrite <- (after_eq _ _ _ _ Hf). apply keeps_print. }
  assert (L : logs calm s0 sf).
  { apply (pre_trans s0 sa sf).
    { rewrite <- (after_eq _ _ _ _ Ha). apply logs_print. now split. }
    apply (pre_trans sa sb sf).
    { rewrite <- (after_eq _ _ _ _ Hb). apply check_prerequisites_calm. }
    apply (pre_trans sb sd sf).
    { rewrite <- (after_eq _ _ _ _ Hd). apply confirm_start_calm. }
    rewrite <- (after_eq _ _ _ _ Hf). apply logs_print. now split. }
  assert (Kd : keeps_self s0 sd).
  { apply (pre_trans s0 sa sd).
    { rewrite <- (after_eq _ _ _ _ Ha). apply keeps_print. }
    apply (pre_trans sa sb sd).
    { rewrite <- (after_eq _ _ _ _ Hb). apply check_prerequisites_keeps_self. }
    rewrite <- (after_eq _ _ _ _ Hd). apply confirm_start_keeps_self. }
  unfold keeps_self in K, Kd. rewrite Kd in Hg. exists sf, sg.
  repeat split; assumption.
Qed.

(** How the loop can end: it passes every step; or it passes some, then a
    required step fails and the user declines; or an exception leaves it. *)
Lemma run_steps_cases rich total cs :
  forall i s,
    (exists vs s',
        Passes rich total i cs s vs s' /\
        run_steps rich total i cs s = (Ok tt, s')) \/
    (exists pre command post vs s1 s2 s',
        cs = pre ++ command :: post /\
        Passes rich total i pre s vs s1 /\
        required command = true /\
        run_command rich command (at_step total (List.length pre + i) command s1)
        = (Ok false, s2) /\
        ask_continue rich (at_question command s2) = (Ok false, s') /\
        run_steps rich total i cs s = (Ok tt, s')) \/
    (exists e s', run_steps rich total i cs s = (Raise e, s')).
Proof.
  induction cs as [ | c rest IH ]; intros i s.
  - left. exists [], s. split; [ constructor | reflexivity ].
  - rewrite run_steps_cons.
    destruct (run_command rich c (at_step total i c s)) as [[[ | ] | e] s1] eqn:Hc.
    + destruct (IH (S i) (after (append_successful (name c)) s1))
        as [ [vs [s' [HP Hr]]]
           | [ [pre [c' [post [vs [sa [sb [s' (Hcs & HP & Hq & Hc' & Ha & Hr)]]]]]]]
             | [e [s' Hr]] ] ].
      * left. exists (true :: vs), s'. split; [ | exact Hr ].
        eapply Passes_success; eassumption.
      * right. left. exists (c :: pre), c', post, (true :: vs), sa, sb, s'.
           split; [ now rewrite Hcs | ].
           split; [ eapply Passes_success; eassumption | ].
           split; [ exact Hq | ].
           split; [ rewrite <- plus_n_Sm in Hc'; exact Hc' | ].
           split; [ exact Ha | exact Hr ].
      * right. right. now exists e, s'.
    + destruct (required c) eqn:Hreq.
      * destruct (ask_continue rich (at_question c s1)) as [[[ | ] | e] s2] eqn:Hask.
        -- destruct (IH (S i) s2)
             as [ [vs [s' [HP Hr]]]
                | [ [pre [c' [post [vs [sa [sb [s' (Hcs & HP & Hq & Hc' & Ha & Hr)]]]]]]]
                  | [e [s' Hr]] ] ].
           ++ left. exists (false :: vs), s'. split; [ | exact Hr ].
              eapply Passes_accepted; eassumption.
           ++ right. left. exists (c :: pre), c', post, (false :: vs), sa, sb, s'.
           split; [ now rewrite Hcs | ].
           split; [ eapply Passes_accepted; eassumption | ].
           split; [ exact Hq | ].
           split; [ rewrite <- plus_n_Sm in Hc'; exact Hc' | ].
           split; [ exact Ha | exact Hr ].
           ++ right. right. now exists e, s'.
        -- right. left. exists [], c, rest, [], s, s1, s2. simpl.
           repeat split; try assumption. constructor.
        -- right. right. now exists e, s2.
      * destruct (IH (S i) (after (append_failed (name c)) s1))
          as [ [vs [s' [HP Hr]]]
             | [ [pre [c' [post [vs [sa [sb [s' (Hcs & HP & Hq & Hc' & Ha & Hr)]]]]]]]
               | [e [s' Hr]] ] ].
        -- left. exists (false :: vs), s'. split; [ | exact Hr ].
           eapply Passes_optional; eassumption.
        -- right. left. exists (c :: pre), c', post, (false :: vs), sa, sb, s'.
           split; [ now rewrite Hcs | ].
           split; [ eapply Passes_optional; eassumption | ].
           split; [ exact Hq | ].
           split; [ rewrite <- plus_n_Sm in Hc'; exact Hc' | ].
           split; [ exact Ha | exact Hr ].
        -- right. right. now exists e, s'.
    + right. right. now exists e, s1.
Qed.

Lemma In_firstn {A} n (l : list A) x : In x (firstn n l) -> In x l.
Proof.
  intro H. rewrite <- (firstn_skipn n l). apply in_or_app. now left.
Qed.

Lemma summary_rows_names m n :
  existsb (fun r => str_in n (row_components r)) (summary_rows m) = true ->
  In n (classified m).
Proof.
  unfold summary_rows, classified. rewrite !existsb_app, !orb_true_iff.
  intros [H | [H | H]].
  - destruct (successful_commands m) as [ | a l ] eqn:Hl; [ discriminate H | ].
    unfold existsb in H. rewrite orb_false_r in H. cbn [row_components] in H.
    apply str_in_In, In_firstn in H. apply in_or_app. now left.
  - destruct (failed_commands m) as [ | a l ] eqn:Hl; [ discriminate H | ].
    unfold existsb in H. rewrite orb_false_r in H. cbn [row_components] in H.
    apply str_in_In in H. apply in_or_app. right. apply in_or_app. now left.
  - destruct (skipped_commands m) as [ | a l ] eqn:Hl; [ discriminate H | ].
    unfold existsb in H. rewrite orb_false_r in H. cbn [row_components] in H.
    apply str_in_In in H. apply in_or_app. right. apply in_or_app. now right.
Qed.

(** [print_summary] returns, leaves the manager alone, asks nothing, and
    names only what is in one of the three outcome sequences. *)
Lemma print_summary_spec rich s :
  exists s',
    print_summary rich s = (Ok tt, s') /\
    self s' = self s /\
    exists evs,
      trace s' = trace s ++ evs /\
      existsb declined evs = false /\
      forall n, existsb (summary_names n) evs = true -> In n (classified (self s)).
Proof.
  unfold print_summary, now, bind, get_self, console_print, log, when, ret.
  destruct (time_time (world s)) as [t w]. simpl.
  destruct rich; simpl.
  - destruct (failed_commands (self s)) as [ | a l ] eqn:Hl; simpl;
      eexists; (split; [ reflexivity | ]); (split; [ reflexivity | ]); simpl;
      eexists; (split; [ repeat rewrite <- app_assoc; simpl; reflexivity | ]);
      (split; [ reflexivity | ]); intros n; simpl;
      rewrite !orb_false_r; apply summary_rows_names.
  - destruct (failed_commands (self s)) as [ | a l ] eqn:Hl; simpl;
      eexists; (split; [ reflexivity | ]); (split; [ reflexivity | ]); simpl;
      eexists; (split; [ repeat rewrite <- app_assoc; simpl; reflexivity | ]);
      (split; [ reflexivity | ]); intros n; simpl; try discriminate.
    rewrite !orb_false_r. intro H.
    assert (Hin : In n (a :: l)).
    { apply orb_true_iff in H. destruct H as [H | H].
      - apply String.eqb_eq in H. now left.
      - right. now apply str_in_In. }
    unfold classified. rewrite Hl. apply in_or_app. right. apply in_or_app. now left.
Qed.

End RunLemmas.

Section OrdinaryRuns.
Context `{E : Env}.
Hypothesis Hord : ordinary_env.

Lemma bind_eq {A B} (m : M A) (k : A -> M B) s a s1 :
  m s = (Ok a, s1) -> bind m k s = k a s1.
Proof. intro H. unfold bind. now rewrite H. Qed.

Lemma bind_raise {A B} (m : M A) (k : A -> M B) s e s1 :
  m s = (Raise e, s1) -> bind m k s = (Raise e, s1).
Proof. intro H. unfold bind. now rewrite H. Qed.

(** What an ordinary child process can come back with. *)
Lemma ordinary_cases argv t w :
  (exists p w', subprocess_run argv t w = (Ok p, w')) \/
  (exists w', subprocess_run argv t w = (Raise TimeoutExpired, w')) \/
  (exists w', subprocess_run argv t w = (Raise FileNotFoundError, w')).
Proof.
  destruct Hord as [Hp _]. specialize (Hp argv t w).
  destruct (subprocess_run argv t w) as [[p | e] w']; simpl in Hp.
  - left. now exists p, w'.
  - destruct e; try discriminate Hp.
    + right. left. now exists w'.
    + right. right. now exists w'.
Qed.

(** A line of child output on a console that prints them all. *)
Lemma print_child_output_shown rich m :
  renders_all rich -> print_child_output rich m = console_print m.
Proof.
  intro H. unfold print_child_output, print_markup.
  destruct rich; [ | reflexivity ]. simpl. now rewrite (H eq_refl m).
Qed.

Lemma check_prerequisite_ordinary rich missing p s :
  renders_all rich ->
  exists missing' s', check_prerequisite rich missing p s = (Ok missing', s').
Proof.
  intro Hshown.
  destruct p as [[tool argv] tool_name].
  unfold check_prerequisite, try_except, bind, run_subprocess. simpl.
  destruct (ordinary_cases argv 10 (world s)) as [[p [w' H]] | [[w' H] | [w' H]]];
    rewrite H; simpl.
  - destruct (returncode p =? 0)%Z; simpl;
      rewrite ?(print_child_output_shown _ _ Hshown);
      eexists; eexists; reflexivity.
  - eexists; eexists; reflexivity.
  - eexists; eexists; reflexivity.
Qed.

Lemma check_each_ordinary rich ps :
  renders_all rich ->
  forall missing s, exists missing' s', check_each rich ps missing s = (Ok missing', s').
Proof.
  intro Hshown. induction ps as [ | p rest IH ]; intros missing s; simpl.
  - now exists missing, s.
  - destruct (check_prerequisite_ordinary rich missing p s Hshown) as [m1 [s1 H1]].
    rewrite (bind_eq _ _ _ _ _ H1). apply IH.
Qed.

Lemma check_prerequisites_ordinary rich s :
  renders_all rich ->
  exists ok s', check_prerequisites rich s = (Ok ok, s').
Proof.
  intro Hshown. unfold check_prerequisites.
  rewrite (bind_eq _ _ s tt (after (console_print MsgCheckingPrerequisites) s));
    [ | reflexivity ].
  destruct (check_each_ordinary rich prerequisites Hshown []
              (after (console_print MsgCheckingPrerequisites) s)) as [m [s1 H1]].
  rewrite (bind_eq _ _ _ _ _ H1).
  destruct m; [ now exists true, s1 | ].
  unfold bind, console_print, log, ret. simpl. eexists; eexists; reflexivity.
Qed.

Lemma run_command_ordinary rich command s :
  renders_all rich ->
  exists b s', run_command rich command s = (Ok b, s').
Proof.
  intro Hshown.
  unfold run_command, bind, try_except, when, print_child_output, print_exception,
    print_markup, console_print, log, run_subprocess, ret, raise; simpl.
  destruct rich; simpl.
  - pose proof (Hshown eq_refl) as Hr.
    destruct (truthy_opt_list (check_cmd command)); simpl.
    + destruct (ordinary_cases (match check_cmd command with Some a => a | None => [] end)
                  10 (world s)) as [[p [w' H]] | [[w' H] | [w' H]]];
        rewrite H; simpl.
      * destruct (returncode p =? 0)%Z; simpl.
        -- destruct (ordinary_cases (cmd command) 300 w')
             as [[q [w2 H2]] | [[w2 H2] | [w2 H2]]]; rewrite H2; simpl.
           ++ destruct (returncode q =? 0)%Z; simpl;
                [ destruct (truthy_str (strip (stdout q)))
                | destruct (truthy_str (stderr q)) ]; simpl;
                rewrite ?Hr; simpl; eexists; eexists; reflexivity.
           ++ eexists; eexists; reflexivity.
           ++ destruct (truthy_opt_str (install_hint command)); simpl;
                eexists; eexists; reflexivity.
        -- destruct (truthy_opt_str (install_hint command)); simpl;
             eexists; eexists; reflexivity.
      * eexists; eexists; reflexivity.
      * destruct (truthy_opt_str (install_hint command)); simpl;
          eexists; eexists; reflexivity.
    + destruct (ordinary_cases (cmd command) 300 (world s))
        as [[q [w2 H2]] | [[w2 H2] | [w2 H2]]]; rewrite H2; simpl.
      * destruct (returncode q =? 0)%Z; simpl;
          [ destruct (truthy_str (strip (stdout q)))
          | destruct (truthy_str (stderr q)) ]; simpl;
          rewrite ?Hr; simpl; eexists; eexists; reflexivity.
      * eexists; eexists; reflexivity.
      * destruct (truthy_opt_str (install_hint command)); simpl;
          eexists; eexists; reflexivity.
  - destruct (ordinary_cases (cmd command) 300 (world s))
      as [[q [w2 H2]] | [[w2 H2] | [w2 H2]]]; rewrite H2; simpl.
    + destruct (returncode q =? 0)%Z; simpl;
        [ | destruct (truthy_str (stderr q)) ]; simpl;
        eexists; eexists; reflexivity.
    + eexists; eexists; reflexivity.
    + eexists; eexists; reflexivity.
Qed.

Lemma ask_continue_ordinary rich s :
  exists b s', ask_continue rich s = (Ok b, s').
Proof.
  destruct Hord as (_ & Hc & Hi).
  unfold ask_continue, ask_confirm, ask_input, bind, ret. destruct rich.
  - destruct (Hc ContinueDespiteFailure false (world s)) as [b Hb].
    destruct (Confirm_ask _ _ _) as [r w]. simpl in Hb. subst r.
    eexists; eexists; reflexivity.
  - destruct (Hi ContinueDespiteFailure (world s)) as [r0 Hb].
    destruct (input _ _) as [r w]. simpl in Hb. subst r.
    eexists; eexists; reflexivity.
Qed.

Lemma run_steps_ordinary rich total cs :
  renders_all rich ->
  forall i s, exists s', run_steps rich total i cs s = (Ok tt, s').
Proof.
  intro Hshown. induction cs as [ | c rest IH ]; intros i s.
  - now exists s.
  - rewrite run_steps_cons.
    destruct (run_command_ordinary rich c (at_step total i c s) Hshown) as [b [s1 H1]].
    rewrite H1. destruct b; [ apply IH | ].
    destruct (required c); [ | apply IH ].
    destruct (ask_continue_ordinary rich (at_question c s1)) as [b [s2 H2]].
    rewrite H2. destruct b; [ apply IH | now exists s2 ].
Qed.

Lemma confirm_start_ordinary rich s :
  exists r s',
    confirm_start rich s = (r, s') /\ (r = Ok tt \/ r = Raise (SystemExit 0)).
Proof.
  destruct Hord as (_ & Hc & Hi).
  unfold confirm_start, ask_confirm, ask_input, bind, when, console_print, log,
    sys_exit, raise, ret.
  destruct rich.
  - destruct (Hc ContinueInstallation true (world s)) as [b Hb].
    destruct (Confirm_ask _ _ _) as [r w]. simpl in Hb. subst r.
    destruct b; simpl; eexists; eexists; (split; [ reflexivity | ]); auto.
  - destruct (Hi ContinueInstallation (world s)) as [r0 Hb].
    destruct (input _ _) as [r w]. simpl in Hb. subst r.
    destruct (str_in (lower (strip r0)) ["n"; "no"]); simpl;
      eexists; eexists; (split; [ reflexivity | ]); auto.
Qed.

(** With ordinary collaborators and a console that prints the child output,
    what [run_installation] returns is decided by the gate and the first
    question alone. *)
Lemma run_installation_ordinary rich s0 :
  renders_all rich ->
  exists ok sg r s',
    check_prerequisites rich (after print_header s0) = (Ok ok, sg) /\
    run_installation rich s0 = (r, s') /\
    (if ok then r = Ok tt \/ r = Raise (SystemExit 0) else r = Raise (SystemExit 1)).
Proof.
  intro Hshown.
  destruct (check_prerequisites_ordinary rich (after print_header s0) Hshown)
    as [ok [sg Hg]].
  exists ok, sg. unfold run_installation.
  rewrite (bind_eq _ _ s0 tt (after print_header s0)); [ | reflexivity ].
  rewrite (bind_eq _ _ _ _ _ Hg).
  destruct ok; simpl.
  - rewrite (bind_eq _ _ sg tt sg); [ | reflexivity ].
    destruct (confirm_start_ordinary rich sg) as [r [sc [Hc [-> | ->]]]].
    + rewrite (bind_eq _ _ _ _ _ Hc).
      rewrite (bind_eq _ _ sc (self sc) sc); [ | reflexivity ].
      match goal with
      | |- context [bind (console_print ?m) _ sc] =>
          rewrite (bind_eq (console_print m) _ sc tt (after (console_print m) sc));
            [ | reflexivity ]
      end.
      match goal with
      | |- context [bind (run_steps rich ?n 1 ?cs) _ ?s] =>
          destruct (run_steps_ordinary rich n cs Hshown 1 s) as [s2 H2];
            rewrite (bind_eq _ _ _ _ _ H2)
      end.
      destruct (print_summary_spec rich s2) as [s3 [H3 _]].
      exists (Ok tt), s3. split; [ exact Hg | ]. split; [ exact H3 | now left ].
    + rewrite (bind_raise _ _ _ _ _ Hc).
      exists (Raise (SystemExit 0)), sc. split; [ exact Hg | ].
      split; [ reflexivity | now right ].
  - rewrite (bind_raise _ _ sg (SystemExit 1) sg); [ | reflexivity ].
    exists (Raise (SystemExit 1)), sg. split; [ exact Hg | ].
    split; reflexivity.
Qed.

End OrdinaryRuns.

(** ** The prerequisite gate *)

Section GateLemmas.
Context `{E : Env}.

(** What one prerequisite check adds to the log, what the three of them
    add, and the report on the missing tools that follows. *)
Definition check_log (p : string * list string * string)
    (r : result CompletedProcess) : list (event Instant) :=
  EvSpawn (snd (fst p)) 10 r :: map EvPrint (version_line (snd p) r).

Definition gate_log (rs : list (result CompletedProcess)) : list (event Instant) :=
  flat_map (fun pr => check_log (fst pr) (snd pr)) (combine prerequisites rs).

Definition missing_report (rs : list (result CompletedProcess)) : list (event Instant) :=
  match gate_missing rs with
  | [] => []
  | _ :: _ => [EvPrint (MsgMissingPrerequisites (gate_missing rs)); EvPrint MsgPleaseInstall]
  end.

Lemma rendered_app rich ms1 ms2 :
  rendered rich (ms1 ++ ms2) = true ->
  rendered rich ms1 = true /\ rendered rich ms2 = true.
Proof.
  unfold rendered. destruct rich; simpl; [ | auto ].
  rewrite existsb_app, negb_orb. apply andb_true_iff.
Qed.

Lemma found_not_missing r : found r = negb (reported_missing r).
Proof. destruct r; simpl; [ now rewrite negb_involutive | reflexivity ]. Qed.

Lemma found_classifiable r : found r = true -> classifiable r = true.
Proof. destruct r; [ reflexivity | discriminate ]. Qed.

(** One prerequisite check that the gate can classify, with a version line
    that the console prints. *)
Lemma check_prerequisite_spec rich missing p s r w1 :
  subprocess_run (snd (fst p)) 10 (world s) = (r, w1) ->
  classifiable r = true ->
  rendered rich (version_line (snd p) r) = true ->
  check_prerequisite rich missing p s
  = (Ok (missing ++ (if reported_missing r then [snd p] else [])),
     mkState w1 (trace s ++ check_log p r) (self s)).
Proof.
  destruct p as [[tool argv] tool_name]. simpl. intros Hrun Hcls Hshown.
  unfold check_prerequisite, try_except, bind, run_subprocess, print_child_output,
    print_markup, console_print, log, ret, raise, check_log.
  simpl. rewrite Hrun. simpl.
  destruct r as [p | e]; simpl in *.
  - destruct (returncode p =? 0)%Z; simpl in *.
    + destruct rich; simpl; [ rewrite (rendered_one _ Hshown) | ]; simpl;
        rewrite app_nil_r, <- app_assoc; reflexivity.
    + reflexivity.
  - destruct e; simpl in *; try discriminate Hcls; reflexivity.
Qed.

(** The gate, when it can classify the three checks and the console prints
    the version lines. *)
Lemma check_prerequisites_spec rich s rs w3 :
  gate_answers (world s) = (rs, w3) ->
  forallb classifiable rs = true ->
  rendered rich (version_lines rs) = true ->
  check_prerequisites rich s
  = (Ok (forallb found rs),
     mkState w3
       (trace s ++ EvPrint MsgCheckingPrerequisites :: gate_log rs ++ missing_report rs)
       (self s)).
Proof.
  destruct s as [w0 tr0 m0]. cbn [world trace self].
  intros Hgate Hcls Hshown. unfold gate_answers in Hgate.
  destruct (subprocess_run ["node"; "--version"] 10 w0) as [r1 w1] eqn:H1.
  destruct (subprocess_run ["npm"; "--version"] 10 w1) as [r2 w2] eqn:H2.
  destruct (subprocess_run ["git"; "--version"] 10 w2) as [r3 wx] eqn:H3.
  injection Hgate as <- <-.
  simpl in Hcls.
  apply andb_true_iff in Hcls as [C1 Hcls].
  apply andb_true_iff in Hcls as [C2 Hcls].
  apply andb_true_iff in Hcls as [C3 _].
  unfold version_lines, prerequisites in Hshown. cbn [flat_map combine fst snd] in Hshown.
  apply rendered_app in Hshown as [S1 Hshown].
  apply rendered_app in Hshown as [S2 Hshown].
  apply rendered_app in Hshown as [S3 _].
  unfold check_prerequisites, prerequisites. cbn [check_each].
  rewrite (bind_eq (console_print MsgCheckingPrerequisites) _ (mkState w0 tr0 m0) tt
             (mkState w0 (tr0 ++ [EvPrint MsgCheckingPrerequisites]) m0) eq_refl).
  set (sa := mkState w0 (tr0 ++ [EvPrint MsgCheckingPrerequisites]) m0).
  pose proof (fun missing =>
                check_prerequisite_spec rich missing
                  ("node", ["node"; "--version"], "Node.js") sa r1 w1 H1 C1 S1) as E1.
  set (sb := mkState w1 (trace sa ++ check_log ("node", ["node"; "--version"], "Node.js") r1)
               (self sa)) in *.
  pose proof (fun missing =>
                check_prerequisite_spec rich missing
                  ("npm", ["npm"; "--version"], "npm") sb r2 w2 H2 C2 S2) as E2.
  set (sc := mkState w2 (trace sb ++ check_log ("npm", ["npm"; "--version"], "npm") r2)
               (self sb)) in *.
  pose proof (fun missing =>
                check_prerequisite_spec rich missing
                  ("git", ["git"; "--version"], "Git") sc r3 wx H3 C3 S3) as E3.
  unfold bind at 1. rewrite (bind_eq _ _ _ _ _ (E1 _)).
  rewrite (bind_eq _ _ _ _ _ (E2 _)).
  rewrite (bind_eq _ _ _ _ _ (E3 _)).
  subst sa sb sc. clear E1 E2 E3.
  unfold gate_log, missing_report, gate_missing, prerequisites.
  cbn [flat_map combine fst snd forallb filter map world trace self].
  rewrite !found_not_missing.
  destruct (reported_missing r1), (reported_missing r2), (reported_missing r3);
    cbn [app negb andb map]; unfold bind, ret, console_print, log;
    cbn [world trace self];
    repeat rewrite <- app_assoc; cbn [app]; repeat rewrite app_nil_r; reflexivity.
Qed.

Lemma filter_spawn_prints ms :
  filter is_spawn (map (@EvPrint Instant) ms) = [].
Proof. induction ms as [ | m ms IH ]; simpl; [ reflexivity | exact IH ]. Qed.

Lemma no_prompt_in_prints ms :
  existsb is_prompt (map (@EvPrint Instant) ms) = false.
Proof. induction ms as [ | m ms IH ]; simpl; [ reflexivity | exact IH ]. Qed.

(** The child processes in the log of the gate are the three checks; the
    gate asks nothing. *)
Lemma gate_log_spawns rs : filter is_spawn (gate_log rs) = gate_spawns rs.
Proof.
  unfold gate_log, gate_spawns.
  induction (combine prerequisites rs) as [ | [p r] l IH ]; simpl; [ reflexivity | ].
  now rewrite filter_app, filter_spawn_prints, IH.
Qed.

Lemma gate_log_no_prompt rs : existsb is_prompt (gate_log rs) = false.
Proof.
  unfold gate_log.
  induction (combine prerequisites rs) as [ | [p r] l IH ]; simpl; [ reflexivity | ].
  now rewrite existsb_app, no_prompt_in_prints, IH.
Qed.

Lemma gate_log_no_report rs missing :
  ~ In (EvPrint (MsgMissingPrerequisites missing)) (gate_log rs).
Proof.
  unfold gate_log.
  induction (combine prerequisites rs) as [ | [p r] l IH ]; simpl; [ tauto | ].
  intros [H | H]; [ discriminate H | ].
  apply in_app_or in H. destruct H as [H | H]; [ | now apply IH ].
  unfold version_line in H.
  destruct r as [q | e]; simpl in H; [ | contradiction ].
  destruct (returncode q =? 0)%Z; simpl in H; [ | contradiction ].
  destruct H as [H | []]. discriminate H.
Qed.

Lemma missing_report_spawns rs : filter is_spawn (missing_report rs) = [].
Proof. unfold missing_report. now destruct (gate_missing rs). Qed.

Lemma missing_report_no_prompt rs : existsb is_prompt (missing_report rs) = false.
Proof. unfold missing_report. now destruct (gate_missing rs). Qed.

(** The three answers that [gate_answers] collects. *)
Lemma gate_answers_three w rs w3 :
  gate_answers w = (rs, w3) -> exists r1 r2 r3, rs = [r1; r2; r3].
Proof.
  unfold gate_answers.
  destruct (subprocess_run ["node"; "--version"] 10 w) as [r1 w1].
  destruct (subprocess_run ["npm"; "--version"] 10 w1) as [r2 w2].
  destruct (subprocess_run ["git"; "--version"] 10 w2) as [r3 wx].
  intro H. injection H as <- _. now exists r1, r2, r3.
Qed.

Lemma found_all_iff_none_missing r1 r2 r3 :
  forallb found [r1; r2; r3] = true <-> gate_missing [r1; r2; r3] = [].
Proof.
  unfold gate_missing, prerequisites. cbn [forallb combine filter map fst snd].
  rewrite !found_not_missing.
  destruct (reported_missing r1), (reported_missing r2), (reported_missing r3);
    simpl; split; intro H; first [ reflexivity | discriminate H ].
Qed.

(** The question asked before the first step, declined. *)
Lemma confirm_start_declined rich s w4 :
  declines_start rich (world s) w4 ->
  exists ev,
    is_prompt ev = true /\
    confirm_start rich s
    = (Raise (SystemExit 0),
       mkState w4 (trace s ++ [ev; EvPrint MsgCancelled]) (self s)).
Proof.
  unfold declines_start, confirm_start, ask_confirm, ask_input, bind, when,
    console_print, log, sys_exit, raise, ret.
  destruct rich.
  - intro H. rewrite H. simpl. eexists. split; [ | rewrite <- app_assoc; reflexivity ].
    reflexivity.
  - intros [response [H Hno]]. rewrite H. cbv beta iota zeta. rewrite Hno. simpl.
    eexists. split; [ | rewrite <- app_assoc; reflexivity ]. reflexivity.
Qed.

End GateLemmas.

(** ** The whole run: claims *)

Section RunClaims.
Context `{E : Env}.


(** C3 (as the code has it): after a run of [run_installation] that returns
    and was not halted, every step name is in the three outcome sequences
    exactly once.  After a halted run the command list splits into the
    steps that were passed, the required step at which the loop was halted,
    which is the last name of [failed_commands], and the steps behind it:
    these are in none of the three sequences and the summary does not name
    them. *)
Theorem C3_every_step_classified rich s0 s' :
  trace s0 = [] ->
  fresh (self s0) ->
  NoDup (map name (commands (self s0))) ->
  run_installation rich s0 = (Ok tt, s') ->
  (halted (trace s') = false ->
   forall c, In c (commands (self s0)) ->
     count_occ string_dec (classified (self s')) (name c) = 1) /\
  (halted (trace s') = true ->
   exists pre command post vs,
     commands (self s0) = pre ++ command :: post /\
     List.length vs = List.length pre /\
     required command = true /\
     successful_commands (self s') = names_with true pre vs /\
     failed_commands (self s') = names_with false pre vs ++ [name command] /\
     skipped_commands (self s') = [] /\
     forall c, In c post ->
       ~ In (name c) (classified (self s')) /\
       in_summary (name c) (trace s') = false).
Proof.
  intros Htr0 (Hs & Hf & Hk) Hnd Hrun.
  destruct (run_installation_returns _ _ _ Hrun) as (s1 & s2 & Hself1 & L & Hloop & Hsum).
  destruct (print_summary_spec rich s2) as (s'' & Hps & Hself' & evs & Htr & Hdecl & Hnames).
  rewrite Hsum in Hps. injection Hps as <-.
  assert (Hhalt' : halted (trace s') = halted (trace s2)).
  { unfold halted. now rewrite Htr, existsb_app, Hdecl, orb_false_r. }
  assert (Hh1 : halted (trace s1) = false).
  { rewrite (logs_calm_halted _ _ L), Htr0. reflexivity. }
  assert (Hsum1 : forall n, in_summary n (trace s1) = false).
  { intro n. rewrite (logs_calm_in_summary n _ _ L), Htr0. reflexivity. }
  rewrite <- Hself1 in Hs, Hf, Hk.
  destruct (run_steps_cases rich (List.length (commands (self s0)))
              (commands (self s0)) 1 s1)
    as [ (vs & sx & HP & Hr)
       | [ (pre & c0 & post & vs & sa & sb & sx & Hcs & HP & Hreq & Hc & Hq & Hr)
         | (e & sx & Hr) ] ];
    rewrite Hloop in Hr; try discriminate Hr; injection Hr as <-.
  - assert (Hh2 : halted (trace s2) = false).
    { now rewrite (logs_calm_halted _ _ (Passes_calm _ _ _ _ _ _ _ HP)). }
    split; [ | rewrite Hhalt', Hh2; discriminate ].
    intros _ c Hin.
    destruct (Passes_self _ _ _ _ _ _ _ HP) as (H1 & H2 & H3 & _ & _ & Hlen).
    unfold classified. rewrite Hself', H1, H2, H3, Hs, Hf, Hk. simpl.
    rewrite app_nil_r, count_names_with by exact Hlen.
    apply NoDup_count_occ'; [ exact Hnd | now apply in_map ].
  - destruct (halting_step_state _ _ _ _ _ _ _ _ _ _ _ HP Hc Hq)
      as (Hsucc & Hfail & Hskip & Hh2 & Hsum2).
    destruct (Passes_self _ _ _ _ _ _ _ HP) as (_ & _ & _ & _ & _ & Hlen).
    rewrite Hs in Hsucc. rewrite Hf in Hfail. rewrite Hk in Hskip.
    simpl in Hsucc, Hfail.
    split; [ rewrite Hhalt', Hh2; discriminate | ].
    intros _. exists pre, c0, post, vs. split; [ exact Hcs | ].
    split; [ exact Hlen | ]. split; [ exact Hreq | ].
    split; [ now rewrite Hself' | ]. split; [ now rewrite Hself' | ].
    split; [ now rewrite Hself' | ].
    intros c Hin.
    assert (Habs : ~ In (name c) (classified (self s'))).
    { unfold classified. rewrite Hself', Hsucc, Hfail, Hskip.
      apply later_names_absent with post; [ now rewrite <- Hcs | exact Hin ]. }
    split; [ exact Habs | ].
    unfold in_summary. rewrite Htr, existsb_app.
    fold (in_summary (name c) (trace s2)). rewrite Hsum2, Hsum1. simpl.
    destruct (existsb (summary_names (name c)) evs) eqn:Hex; [ | reflexivity ].
    exfalso. apply Habs. rewrite Hself'. now apply Hnames.
Qed.

(** C4 (as the code has it): when the prerequisite tools are found, the
    console prints their version lines, and the user declines the question
    asked before the first step, [main] ends with [sys.exit(0)]: the only
    child processes spawned are the three prerequisite checks, the three
    outcome sequences stay empty, and the exit status is 0. *)
Theorem C4_declined_start_exits_zero rich cs w t w0 rs w3 w4 :
  time_time w = (t, w0) ->
  gate_answers w0 = (rs, w3) ->
  forallb found rs = true ->
  rendered rich (version_lines rs) = true ->
  declines_start rich w3 w4 ->
  exists s',
    main_on cs rich w = (Raise (SystemExit 0), s') /\
    exit_status (fst (main_on cs rich w)) = 0%Z /\
    world s' = w4 /\
    self s' = new_manager t cs /\
    classified (self s') = [] /\
    filter is_spawn (trace s') = gate_spawns rs /\
    In (EvPrint MsgCancelled) (trace s').
Proof.
  intros Ht Hgate Hfound Hshown Hdecl.
  assert (Hcls : forallb classifiable rs = true).
  { apply forallb_forall. intros r Hr. apply found_classifiable.
    exact (proj1 (forallb_forall found rs) Hfound r Hr). }
  set (s0 := mkState w0 [] (new_manager t cs)).
  pose proof (check_prerequisites_spec rich (after print_header s0) rs w3 Hgate
                Hcls Hshown) as Hspec.
  rewrite Hfound in Hspec.
  match type of Hspec with _ = (_, ?x) => set (sg := x) in * end.
  destruct (confirm_start_declined rich sg w4 Hdecl) as [ev [Hev Hconf]].
  assert (Hrun : run_installation rich s0
                 = (Raise (SystemExit 0),
                    mkState w4 (trace sg ++ [ev; EvPrint MsgCancelled]) (self sg))).
  { unfold run_installation.
    rewrite (bind_eq _ _ s0 tt (after print_header s0) eq_refl).
    rewrite (bind_eq _ _ _ _ _ Hspec). simpl negb. cbn [when].
    rewrite (bind_eq _ _ sg tt sg eq_refl).
    now rewrite (bind_raise _ _ _ _ _ Hconf). }
  unfold main_on. rewrite Ht. fold s0. unfold try_except. rewrite Hrun. simpl.
  eexists. split; [ reflexivity | ]. split; [ reflexivity | ].
  split; [ reflexivity | ]. split; [ reflexivity | ]. split; [ reflexivity | ].
  split.
  - simpl. rewrite !filter_app, gate_log_spawns, missing_report_spawns. simpl.
    destruct ev; try discriminate Hev; simpl; now rewrite !app_nil_r.
  - simpl. right. right. apply in_or_app. right. simpl. tauto.
Qed.

End RunClaims.

Section GateClaims.
Context `{E : Env}.

(** C5 (as the code has it): when at least one of Node.js, npm and Git is
    reported missing by its version check (non-zero exit, timeout, no such
    executable, or another [SubprocessError]), no check raises anything
    else, and the console prints the version lines of the tools that were
    found, [main] ends with [sys.exit(1)] right after the gate: the list of
    missing tools is printed, the only child processes spawned are the three
    version checks, the three outcome sequences are empty, and no question
    is asked. *)
Theorem C5_missing_prerequisite_aborts rich cs w t w0 rs w3 :
  time_time w = (t, w0) ->
  gate_answers w0 = (rs, w3) ->
  forallb classifiable rs = true ->
  rendered rich (version_lines rs) = true ->
  existsb reported_missing rs = true ->
  exists s',
    main_on cs rich w = (Raise (SystemExit 1), s') /\
    exit_status (fst (main_on cs rich w)) = 1%Z /\
    world s' = w3 /\
    self s' = new_manager t cs /\
    classified (self s') = [] /\
    filter is_spawn (trace s') = gate_spawns rs /\
    gate_missing rs <> [] /\
    In (EvPrint (MsgMissingPrerequisites (gate_missing rs))) (trace s') /\
    existsb is_prompt (trace s') = false.
Proof.
  intros Ht Hgate Hcls Hshown Hmiss.
  set (s0 := mkState w0 [] (new_manager t cs)).
  pose proof (check_prerequisites_spec rich (after print_header s0) rs w3 Hgate
                Hcls Hshown) as Hspec.
  assert (Hnot : forallb found rs = false).
  { destruct (gate_answers_three _ _ _ Hgate) as (r1 & r2 & r3 & ->).
    cbn [forallb existsb] in *. rewrite !found_not_missing.
    destruct (reported_missing r1), (reported_missing r2), (reported_missing r3);
      first [ reflexivity | discriminate Hmiss ]. }
  assert (Hne : gate_missing rs <> []).
  { destruct (gate_answers_three _ _ _ Hgate) as (r1 & r2 & r3 & ->).
    intro Habs. apply found_all_iff_none_missing in Habs. congruence. }
  rewrite Hnot in Hspec.
  match type of Hspec with _ = (_, ?x) => set (sg := x) in * end.
  assert (Hrun : run_installation rich s0 = (Raise (SystemExit 1), sg)).
  { unfold run_installation.
    rewrite (bind_eq _ _ s0 tt (after print_header s0) eq_refl).
    rewrite (bind_eq _ _ _ _ _ Hspec). reflexivity. }
  unfold main_on. rewrite Ht. fold s0. unfold try_except. rewrite Hrun. simpl.
  eexists. split; [ reflexivity | ]. split; [ reflexivity | ].
  split; [ reflexivity | ]. split; [ reflexivity | ]. split; [ reflexivity | ].
  split.
  { simpl. now rewrite !filter_app, gate_log_spawns, missing_report_spawns, app_nil_r. }
  split; [ exact Hne | ].
  split.
  { simpl. right. right. apply in_or_app. right. unfold missing_report.
    destruct (gate_missing rs); [ congruence | simpl; tauto ]. }
  simpl. now rewrite !existsb_app, gate_log_no_prompt, missing_report_no_prompt.
Qed.

End GateClaims.

Section TimeoutClaim.
Context `{E : Env}.

Lemma printed_app {A} (m : M A) s evs :
  trace (after m s) = trace s ++ evs -> printed m s = evs.
Proof.
  intro H. unfold printed. rewrite H, skipn_app, skipn_all, Nat.sub_diag. reflexivity.
Qed.

(** The lines of the summary other than the elapsed time are made from the
    manager alone. *)
Lemma summary_from_manager rich sa sb :
  self sa = self sb ->
  untimed (printed (print_summary rich) sa) = untimed (printed (print_summary rich) sb).
Proof.
  intro Hself.
  assert (H : forall s,
             exists t, untimed (printed (print_summary rich) s)
                       = untimed (printed (print_summary rich)
                                    (mkState (world s) [] (self s)))
                         /\ time_time (world s) = (t, snd (time_time (world s)))).
  { intro s. exists (fst (time_time (world s))). split; [ | now destruct (time_time _) ].
    rewrite (printed_app (print_summary rich) s
               (trace (after (print_summary rich) (mkState (world s) [] (self s))))).
    - rewrite (printed_app (print_summary rich) (mkState (world s) [] (self s))
                 (trace (after (print_summary rich) (mkState (world s) [] (self s)))));
        reflexivity.
    - unfold after, print_summary, now, bind, get_self, console_print, log, when, ret.
      simpl. destruct (time_time (world s)) as [t w]. simpl.
      destruct rich; simpl;
        destruct (failed_commands (self s)) as [ | a l ]; simpl;
        repeat rewrite <- app_assoc; reflexivity. }
  destruct (H sa) as [ta [Ha _]]. destruct (H sb) as [tb [Hb _]].
  rewrite Ha, Hb, Hself. clear.
  unfold printed, after, print_summary, now, bind, get_self, console_print, log,
    when, ret.
  simpl. destruct (time_time (world sa)) as [ta wa].
  destruct (time_time (world sb)) as [tb wb]. simpl.
  destruct rich; simpl;
    destruct (failed_commands (self sb)) as [ | a l ]; reflexivity.
Qed.


End TimeoutClaim.

(** ** The two paths of [run_command] on a step with a failing precheck *)

(** C8: on the plain path the precheck of [step_guarded], which exits 1 in
    this environment, is never run: [run_command] spawns the main invocation
    and returns [True]. *)
Theorem C8_plain_path_skips_precheck :
  subprocess_run (Env := careful_user) ["false"] 10 tt = (exit_with 1, tt) /\
  check_cmd step_guarded = Some ["false"] /\
  run_command false step_guarded guarded_state
  = (Ok true,
     mkState (E := careful_user) tt
       [EvPrint (MsgRunning "Checking the tool");
        EvSpawn ["true"] 300 (exit_with 0);
        EvPrint (MsgCompleted "Tool")]
       (self guarded_state)) /\
  successful_commands (self (snd (guarded_run false))) = ["Tool"] /\
  failed_commands (self (snd (guarded_run false))) = [].
Proof. repeat split. Qed.

(** C10: on the same step in the same environment the rich path returns
    [False] and the plain path [True], so that the whole run files the step
    under [failed_commands] on one path and under [successful_commands] on
    the other. *)
Theorem C10_paths_disagree :
  fst (run_command true step_guarded guarded_state) = Ok false /\
  fst (run_command false step_guarded guarded_state) = Ok true /\
  failed_commands (self (snd (guarded_run true))) = ["Tool"] /\
  successful_commands (self (snd (guarded_run true))) = [] /\
  failed_commands (self (snd (guarded_run false))) = [] /\
  successful_commands (self (snd (guarded_run false))) = ["Tool"].
Proof. repeat split. Qed.

(** ** Child output that rich reads as markup *)

(** C6: in this environment every child process exits 0, and [a] writes
    the directory it was found in before its version.  The rich path prints
    that output as markup, rich rejects its closing tag, and [run_command]
    raises [MarkupError] after the "completed successfully" line instead of
    returning [True]: the loop is left before the name of A is appended,
    step C is never run, and the process ends with status 1 and empty
    outcome sequences.  On the plain path both names are appended to
    [successful_commands]. *)
Theorem C6_bracketed_output_stops_the_run :
  all_exit_zero (E := bracket_machine) true [step_A; step_C] tt /\
  rich_rejects (Env := bracket_machine) (MsgOutput "[/opt/pnpm] 9.1.0") = true /\
  run_command true step_A (bracket_state [step_A; step_C])
  = (Raise MarkupError,
     mkState (E := bracket_machine) tt
       [EvPrint (MsgProgress "step A");
        EvSpawn ["a"] 300 (Ok (mkCompleted 0 "[/opt/pnpm] 9.1.0" ""));
        EvPrint (MsgCompleted "A")]
       (self (bracket_state [step_A; step_C]))) /\
  fst (run_steps true 2 1 [step_A; step_C] (bracket_state [step_A; step_C]))
  = Raise MarkupError /\
  fst (version_run true) = Raise MarkupError /\
  exit_status (fst (version_run true)) = 1%Z /\
  successful_commands (self (snd (version_run true))) = [] /\
  failed_commands (self (snd (version_run true))) = [] /\
  filter is_spawn (trace (snd (version_run true)))
  = gate_spawns [exit_with 0; exit_with 0; exit_with 0]
    ++ [EvSpawn ["a"] 300 (Ok (mkCompleted 0 "[/opt/pnpm] 9.1.0" ""))] /\
  fst (version_run false) = Ok tt /\
  successful_commands (self (snd (version_run false))) = ["A"; "C"].
Proof.
  split.
  { simpl. unfold exits_zero, reaches_invocation. simpl.
    repeat (first [ exact I | reflexivity | eexists | split ]). }
  repeat split.
Qed.

(** C7: in the same environment the optional step B exits 1 and names a
    file in its error output.  On the rich path [run_command] raises
    [MarkupError] after the "failed" line instead of returning [False]: the
    name of B is not appended to [failed_commands], the loop does not go on
    to step C, and the process ends with status 1.  On the plain path B is
    appended to [failed_commands], no question is asked, and C is run. *)
Theorem C7_bracketed_error_output_stops_the_run :
  required step_B_optional = false /\
  subprocess_run (Env := bracket_machine) ["b"] 300 tt
  = (Ok (mkCompleted 1 "" "[/tmp/x]"), tt) /\
  rich_rejects (Env := bracket_machine) (MsgErrorOutput "[/tmp/x]") = true /\
  run_command true step_B_optional (bracket_state [step_B_optional; step_C])
  = (Raise MarkupError,
     mkState (E := bracket_machine) tt
       [EvPrint (MsgProgress "step B");
        EvSpawn ["b"] 300 (Ok (mkCompleted 1 "" "[/tmp/x]"));
        EvPrint (MsgFailed "B")]
       (self (bracket_state [step_B_optional; step_C]))) /\
  fst (run_steps true 2 1 [step_B_optional; step_C]
         (bracket_state [step_B_optional; step_C]))
  = Raise MarkupError /\
  fst (complaint_run true) = Raise MarkupError /\
  exit_status (fst (complaint_run true)) = 1%Z /\
  failed_commands (self (snd (complaint_run true))) = [] /\
  successful_commands (self (snd (complaint_run true))) = [] /\
  filter is_spawn (trace (snd (complaint_run true)))
  = gate_spawns [exit_with 0; exit_with 0; exit_with 0]
    ++ [EvSpawn ["b"] 300 (Ok (mkCompleted 1 "" "[/tmp/x]"))] /\
  fst (complaint_run false) = Ok tt /\
  failed_commands (self (snd (complaint_run false))) = ["B"] /\
  successful_commands (self (snd (complaint_run false))) = ["C"] /\
  filter is_prompt (trace (snd (complaint_run false)))
  = [EvInput ContinueInstallation (Ok "y")].
Proof. repeat split. Qed.

(** ** Concrete runs *)

Lemma scripted_ordinary proc not_rich yes typed :
  (forall argv, ordinary (proc argv) = true) ->
  ordinary_env (E := scripted proc not_rich yes typed).
Proof.
  intro Hp. split; [ | split ].
  - intros argv t w. apply Hp.
  - intros p d w. now exists (yes p).
  - intros p w. now exists (typed p).
Qed.

Lemma scripted_renders_all proc not_rich yes typed rich :
  renders_all (E := scripted proc not_rich yes typed) rich.
Proof. intros _ m. reflexivity. Qed.




Lemma C3_counterexample :
  halted (trace (snd (halted_run true))) = true /\
  successful_commands (self (snd (halted_run true))) = ["A"] /\
  failed_commands (self (snd (halted_run true))) = ["B"] /\
  skipped_commands (self (snd (halted_run true))) = [] /\
  in_summary "C" (trace (snd (halted_run true))) = false /\
  in_summary "C" (trace (snd (halted_run false))) = false /\
  summary_of (trace (snd (halted_run true))) = summary_of (trace (snd (short_run true))) /\
  summary_of (trace (snd (halted_run false)))
  = [EvPrint MsgSummaryHeading; EvPrint (MsgCountSuccessful 1);
     EvPrint (MsgCountFailed 1); EvPrint (MsgCountSkipped 0);
     EvPrint (MsgTotalTime tt tt); EvPrint (MsgFailedComponents ["B"])].
Proof. repeat split. Qed.

Lemma C3_witness :
  (halted (trace (snd (run_installation true abc_state))) = false ->
   forall c, In c (commands (self abc_state)) ->
     count_occ string_dec (classified (self (snd (run_installation true abc_state))))
       (name c) = 1) /\
  (halted (trace (snd (run_installation true abc_state))) = true ->
   exists pre command post vs,
     commands (self abc_state) = pre ++ command :: post /\
     List.length vs = List.length pre /\
     required command = true /\
     successful_commands (self (snd (run_installation true abc_state)))
     = names_with true pre vs /\
     failed_commands (self (snd (run_installation true abc_state)))
     = names_with false pre vs ++ [name command] /\
     skipped_commands (self (snd (run_installation true abc_state))) = [] /\
     forall c, In c post ->
       ~ In (name c) (classified (self (snd (run_installation true abc_state)))) /\
       in_summary (name c) (trace (snd (run_installation true abc_state))) = false).
Proof.
  apply (C3_every_step_classified (E := careful_user) true abc_state
           (snd (run_installation true abc_state))).
  - reflexivity.
  - repeat split.
  - unfold abc_state, start_state, new_manager. simpl.
    repeat constructor; simpl; intuition discriminate.
  - vm_compute. reflexivity.
Defined.

(** The user declines before the first step and the exit status is 0. *)
Lemma C4_counterexample :
  In (EvConfirm ContinueInstallation true (Ok false)) (trace (snd (cancelled_run true))) /\
  exit_status (fst (cancelled_run true)) = 0%Z /\
  In (EvInput ContinueInstallation (Ok " No ")) (trace (snd (cancelled_run false))) /\
  exit_status (fst (cancelled_run false)) = 0%Z.
Proof.
  repeat split; simpl; repeat (first [ left; reflexivity | right ]).
Qed.

Lemma C4_witness :
  exists s',
    main_on (E := cancelling_user) default_commands false tt = (Raise (SystemExit 0), s') /\
    exit_status (fst (main_on (E := cancelling_user) default_commands false tt)) = 0%Z /\
    world s' = tt /\
    self s' = new_manager (E := cancelling_user) tt default_commands /\
    classified (self s') = [] /\
    filter is_spawn (trace s') = gate_spawns [exit_with 0; exit_with 0; exit_with 0] /\
    In (EvPrint MsgCancelled) (trace s').
Proof.
  apply (C4_declined_start_exits_zero (E := cancelling_user) false default_commands
           tt tt tt [exit_with 0; exit_with 0; exit_with 0] tt tt).
  - reflexivity.
  - reflexivity.
  - reflexivity.
  - reflexivity.
  - exists " No ". split; reflexivity.
Defined.

(** Node.js is missing and the check of npm raises [PermissionError], which
    the gate does not catch: the run ends with status 1 in the handler of
    [main], no list of missing tools is printed, and Git is never
    checked. *)
Lemma C5_counterexample :
  fst (gate_answers (E := locked_down) tt)
  = [Raise FileNotFoundError;
     Raise (OtherException "[Errno 13] Permission denied: 'npm'"); exit_with 0] /\
  existsb reported_missing (fst (gate_answers (E := locked_down) tt)) = true /\
  forallb classifiable (fst (gate_answers (E := locked_down) tt)) = false /\
  denied_run true
  = (Raise (SystemExit 1),
     mkState (E := locked_down) tt
       [EvPrint MsgHeader; EvPrint MsgCheckingPrerequisites;
        EvSpawn ["node"; "--version"] 10 (Raise FileNotFoundError);
        EvSpawn ["npm"; "--version"] 10
          (Raise (OtherException "[Errno 13] Permission denied: 'npm'"));
        EvPrint (MsgUnexpectedTopLevel
                   (OtherException "[Errno 13] Permission denied: 'npm'"))]
       (new_manager (E := locked_down) tt default_commands)) /\
  trace (snd (denied_run false)) = trace (snd (denied_run true)) /\
  (forall missing,
     ~ In (EvPrint (MsgMissingPrerequisites missing)) (trace (snd (denied_run true)))).
Proof.
  repeat split.
  intros missing H. simpl in H.
  repeat (destruct H as [H | H]; [ discriminate H | ]). exact H.
Qed.

Lemma C5_witness :
  exists s',
    main_on (E := no_git) default_commands true tt = (Raise (SystemExit 1), s') /\
    exit_status (fst (main_on (E := no_git) default_commands true tt)) = 1%Z /\
    world s' = tt /\
    self s' = new_manager (E := no_git) tt default_commands /\
    classified (self s') = [] /\
    filter is_spawn (trace s')
    = gate_spawns [exit_with 0; exit_with 0; Raise FileNotFoundError] /\
    gate_missing [exit_with 0; exit_with 0; Raise FileNotFoundError] <> [] /\
    In (EvPrint (MsgMissingPrerequisites
                   (gate_missing [exit_with 0; exit_with 0; Raise FileNotFoundError])))
       (trace s') /\
    existsb is_prompt (trace s') = false.
Proof.
  apply (C5_missing_prerequisite_aborts (E := no_git) true default_commands
           tt tt tt [exit_with 0; exit_with 0; Raise FileNotFoundError] tt);
    reflexivity.
Defined.



(** ** Further properties of [run_command] *)

Section RunCommandFacts.
Context `{E : Env}.

(** X1: [run_command] contains the exceptions of its child processes:
    whatever they do, it returns a boolean or lets through an exception that
    is no [Exception] ([KeyboardInterrupt], [SystemExit]) or, on the rich
    path only, the [MarkupError] with which rich rejects one of its lines;
    the plain path lets no [Exception] through.  It leaves the manager as it
    was and asks no question. *)
Theorem X1_run_command_contains_exceptions rich command s :
  match fst (run_command rich command s) with
  | Ok _ => True
  | Raise e => is_Exception e = false \/ (rich = true /\ e = MarkupError)
  end /\
  self (snd (run_command rich command s)) = self s /\
  exists evs,
    trace (snd (run_command rich command s)) = trace s ++ evs /\
    existsb is_prompt evs = false.
Proof.
  destruct (run_command rich command s) as [r s'] eqn:Hc. simpl.
  split; [ | split ].
  - destruct r as [b | e]; [ exact I | ]. exact (run_command_raises _ _ _ _ _ Hc).
  - exact (run_command_self _ _ _ _ _ Hc).
  - pose proof (run_command_silent rich command s) as [evs [Ht Hf]].
    unfold after in Ht. rewrite Hc in Ht. simpl in Ht.
    exists evs. split; [ exact Ht | ].
    clear Ht. induction Hf as [ | ev evs' [Hp _] _ IH ]; simpl; [ reflexivity | ].
    now rewrite Hp, IH.
Qed.

(** X2: [run_command] returns [True] only when the main invocation was
    spawned with the 300 second timeout and exited 0 (after which the
    "completed successfully" line was printed); on the rich path a declared
    precheck was spawned before and exited 0 as well. *)
Theorem X2_success_means_exit_zero rich command s s' :
  run_command rich command s = (Ok true, s') ->
  exists p evs,
    trace s' = trace s ++ evs /\
    In (EvSpawn (cmd command) 300 (Ok p)) evs /\
    returncode p = 0%Z /\
    In (EvPrint (MsgCompleted (name command))) evs /\
    (rich = true -> truthy_opt_list (check_cmd command) = true ->
     exists argv q,
       check_cmd command = Some argv /\
       In (EvSpawn argv 10 (Ok q)) evs /\ returncode q = 0%Z).
Proof.
  unfold run_command, bind, try_except, when, print_child_output, print_exception,
    print_markup, console_print, log, run_subprocess, ret, raise; simpl.
  destruct rich; simpl.
  - destruct (check_cmd command) as [[ | a argv] | ] eqn:Hcc; simpl.
    + destruct (subprocess_run (cmd command) 300 (world s)) as [[q | e1] w1]; simpl.
      * destruct (returncode q =? 0)%Z eqn:Hz; simpl;
          [ destruct (truthy_str (strip (stdout q)))
          | destruct (truthy_str (stderr q)) ]; simpl;
          try destruct (rich_rejects _); simpl;
          intro H; inversion H; subst; clear H; simpl;
          exists q; eexists;
          (split; [ repeat rewrite <- app_assoc; simpl; reflexivity | ]);
          (split; [ simpl; tauto | ]);
          (split; [ now apply Z.eqb_eq | ]);
          (split; [ simpl; tauto | ]); intros _ Hf; discriminate Hf.
      * destruct e1; simpl;
          try destruct (truthy_opt_str (install_hint command)); simpl;
          intro H; inversion H.
    + destruct (subprocess_run (a :: argv) 10 (world s)) as [[p | e0] w]; simpl.
      * destruct (returncode p =? 0)%Z eqn:Hzp; simpl.
        -- destruct (subprocess_run (cmd command) 300 w) as [[q | e1] w1]; simpl.
           ++ destruct (returncode q =? 0)%Z eqn:Hz; simpl;
                [ destruct (truthy_str (strip (stdout q)))
                | destruct (truthy_str (stderr q)) ]; simpl;
                try destruct (rich_rejects _); simpl;
                intro H; inversion H; subst; clear H; simpl;
                exists q; eexists;
                (split; [ repeat rewrite <- app_assoc; simpl; reflexivity | ]);
                (split; [ simpl; tauto | ]);
                (split; [ now apply Z.eqb_eq | ]);
                (split; [ simpl; tauto | ]); intros _ _;
                exists (a :: argv), p;
                (split; [ reflexivity | ]);
                (split; [ simpl; tauto | now apply Z.eqb_eq ]).
           ++ destruct e1; simpl;
                try destruct (truthy_opt_str (install_hint command)); simpl;
                intro H; inversion H.
        -- destruct (truthy_opt_str (install_hint command)); simpl;
             intro H; inversion H.
      * destruct e0; simpl;
          try destruct (truthy_opt_str (install_hint command)); simpl;
          intro H; inversion H.
    + destruct (subprocess_run (cmd command) 300 (world s)) as [[q | e1] w1]; simpl.
      * destruct (returncode q =? 0)%Z eqn:Hz; simpl;
          [ destruct (truthy_str (strip (stdout q)))
          | destruct (truthy_str (stderr q)) ]; simpl;
          try destruct (rich_rejects _); simpl;
          intro H; inversion H; subst; clear H; simpl;
          exists q; eexists;
          (split; [ repeat rewrite <- app_assoc; simpl; reflexivity | ]);
          (split; [ simpl; tauto | ]);
          (split; [ now apply Z.eqb_eq | ]);
          (split; [ simpl; tauto | ]); intros _ Hf; discriminate Hf.
      * destruct e1; simpl;
          try destruct (truthy_opt_str (install_hint command)); simpl;
          intro H; inversion H.
  - destruct (subprocess_run (cmd command) 300 (world s)) as [[q | e1] w1]; simpl.
    + destruct (returncode q =? 0)%Z eqn:Hz; simpl;
        [ | destruct (truthy_str (stderr q)) ]; simpl;
        intro H; inversion H; subst; clear H; simpl;
        exists q; eexists;
        (split; [ repeat rewrite <- app_assoc; simpl; reflexivity | ]);
        (split; [ simpl; tauto | ]);
        (split; [ now apply Z.eqb_eq | ]);
        (split; [ simpl; tauto | ]); intros Hf; discriminate Hf.
    + destruct e1; simpl; intro H; inversion H.
Qed.


End RunCommandFacts.

(** ** Further properties of the step loop *)

Section LoopFacts.
Context `{E : Env}.

(** X4: when a required step fails and the user agrees to continue, the
    loop records the step under [failed_commands], asks exactly that one
    question, and goes on with the remaining steps; the run is not halted. *)
Theorem X4_accepted_failure_goes_on rich total i command rest s s1 w2 :
  required command = true ->
  run_command rich command (at_step total i command s) = (Ok false, s1) ->
  answers_continue rich true (world s1) w2 ->
  exists s2 evs,
    run_steps rich total i (command :: rest) s = run_steps rich total (S i) rest s2 /\
    world s2 = w2 /\
    failed_commands (self s2) = failed_commands (self s) ++ [name command] /\
    successful_commands (self s2) = successful_commands (self s) /\
    skipped_commands (self s2) = skipped_commands (self s) /\
    trace s2 = trace s ++ evs /\
    List.length (filter is_prompt evs) = 1 /\
    halted (trace s2) = halted (trace s).
Proof.
  intros Hreq Hc Hans.
  destruct (ask_continue_answers rich true (at_question command s1) w2)
    as [s2 [Hq Hw]].
  { now rewrite at_question_world. }
  pose proof (run_command_self _ _ _ _ _ Hc) as Hself. simpl in Hself.
  destruct (ask_continue_spec _ _ _ _ Hq) as [Hself2 [ev [Htr [Hd _]]]].
  pose proof (run_command_silent rich command (at_step total i command s))
    as [evs [Ht Hf]].
  unfold after in Ht. rewrite Hc in Ht. simpl in Ht.
  assert (Hnp : filter is_prompt evs = []).
  { clear Ht. induction Hf as [ | e0 evs' [Hp _] _ IH ]; simpl; [ reflexivity | ].
    now rewrite Hp. }
  assert (Hprompt : is_prompt ev = true).
  { revert Hq Htr. unfold ask_continue, ask_confirm, ask_input, bind, ret.
    destruct rich.
    - destruct (Confirm_ask _ _ _) as [r w]. intro H. inversion H; subst. simpl.
      intro Ha. apply app_inv_head in Ha. now inversion Ha.
    - destruct (input _ _) as [[r | e] w]; simpl; [ | discriminate ].
      intro H. inversion H; subst. simpl.
      intro Ha. apply app_inv_head in Ha. now inversion Ha. }
  exists s2, ([EvPrint (MsgStep i total (name command))] ++ evs
              ++ [EvPrint (MsgCriticalFailure (name command))] ++ [ev]).
  split; [ now rewrite run_steps_cons, Hc, Hreq, Hq | ].
  split; [ exact Hw | ].
  rewrite Hself2. simpl. rewrite Hself.
  split; [ reflexivity | ]. split; [ reflexivity | ]. split; [ reflexivity | ].
  split.
  { rewrite Htr. simpl. rewrite Ht. simpl. now rewrite <- !app_assoc. }
  split.
  { simpl. rewrite filter_app, Hnp. simpl. now rewrite Hprompt. }
  unfold halted. rewrite Htr, existsb_app. simpl. rewrite Hd. simpl.
  rewrite orb_false_r.
  change (halted (trace (at_question command s1)) = halted (trace s)).
  rewrite (logs_calm_halted _ _ (at_question_calm command s1)).
  rewrite (logs_calm_halted _ _ (run_command_calm _ _ _ _ _ Hc)).
  apply (logs_calm_halted _ _ (at_step_calm total i command s)).
Qed.

Lemma names_with_nil v cs : names_with v cs [] = [].
Proof. now destruct cs. Qed.

(** X5: however the loop ends (all steps run, halted, or left by an
    exception), the names it has appended to [successful_commands] and
    [failed_commands] are those of the first steps of the list, in the
    declared order, each step in one of the two; [skipped_commands], the
    command list and the start time are as they were. *)
Theorem X5_classified_steps_are_a_prefix rich total cs :
  forall i s,
    exists vs,
      List.length vs <= List.length cs /\
      successful_commands (self (after (run_steps rich total i cs) s))
      = successful_commands (self s) ++ names_with true cs vs /\
      failed_commands (self (after (run_steps rich total i cs) s))
      = failed_commands (self s) ++ names_with false cs vs /\
      skipped_commands (self (after (run_steps rich total i cs) s))
      = skipped_commands (self s) /\
      commands (self (after (run_steps rich total i cs) s)) = commands (self s) /\
      start_time (self (after (run_steps rich total i cs) s)) = start_time (self s).
Proof.
  induction cs as [ | c rest IH ]; intros i s.
  - exists []. simpl. now rewrite !app_nil_r.
  - unfold after. rewrite run_steps_cons.
    destruct (run_command rich c (at_step total i c s)) as [[[ | ] | e] s1] eqn:Hc;
      pose proof (run_command_self _ _ _ _ _ Hc) as Hself; simpl in Hself.
    + destruct (IH (S i) (after (append_successful (name c)) s1))
        as (vs & Hl & H1 & H2 & H3 & H4 & H5).
      exists (true :: vs). unfold after in *. simpl in *.
      rewrite H1, H2, H3, H4, H5, Hself, <- app_assoc. simpl.
      repeat split; try reflexivity. lia.
    + assert (Hfail : exists vs,
                 List.length vs <= List.length rest /\
                 successful_commands
                   (self (snd (run_steps rich total (S i) rest
                                 (after (append_failed (name c)) s1))))
                 = successful_commands (self s) ++ names_with true (c :: rest) (false :: vs) /\
                 failed_commands
                   (self (snd (run_steps rich total (S i) rest
                                 (after (append_failed (name c)) s1))))
                 = failed_commands (self s) ++ names_with false (c :: rest) (false :: vs) /\
                 skipped_commands
                   (self (snd (run_steps rich total (S i) rest
                                 (after (append_failed (name c)) s1))))
                 = skipped_commands (self s) /\
                 commands
                   (self (snd (run_steps rich total (S i) rest
                                 (after (append_failed (name c)) s1))))
                 = commands (self s) /\
                 start_time
                   (self (snd (run_steps rich total (S i) rest
                                 (after (append_failed (name c)) s1))))
                 = start_time (self s)).
      { destruct (IH (S i) (after (append_failed (name c)) s1))
          as (vs & Hl & H1 & H2 & H3 & H4 & H5).
        exists vs. unfold after in *. simpl in *.
        rewrite H1, H2, H3, H4, H5, Hself, <- app_assoc. simpl.
        repeat split; try reflexivity. exact Hl. }
      destruct (required c).
      * destruct (ask_continue rich (at_question c s1)) as [[[ | ] | e] s2] eqn:Hq.
        -- destruct (ask_continue_spec _ _ _ _ Hq) as [Hself2 _].
           destruct (IH (S i) s2) as (vs & Hl & H1 & H2 & H3 & H4 & H5).
           exists (false :: vs). unfold after in *. simpl in *.
           rewrite H1, H2, H3, H4, H5, Hself2. simpl.
           rewrite Hself, <- app_assoc. simpl.
           repeat split; try reflexivity. lia.
        -- destruct (ask_continue_spec _ _ _ _ Hq) as [Hself2 _].
           exists [false]. simpl. rewrite Hself2. simpl. rewrite Hself.
           rewrite !names_with_nil, app_nil_r. repeat split; try reflexivity. lia.
        -- exists [false]. simpl.
           assert (Hself2 : self s2 = self (at_question c s1)).
           { revert Hq. unfold ask_continue, ask_confirm, ask_input, bind, ret.
             destruct rich.
             - destruct (Confirm_ask _ _ _) as [r w]. intro H. now inversion H.
             - destruct (input _ _) as [[r | e0] w]; simpl; intro H; now inversion H. }
           rewrite Hself2. simpl. rewrite Hself.
           rewrite !names_with_nil, app_nil_r. repeat split; try reflexivity. lia.
      * destruct Hfail as (vs & Hl & H). exists (false :: vs).
        split; [ simpl; lia | exact H ].
    + exists []. simpl. rewrite Hself, !app_nil_r. repeat split; try reflexivity. lia.
Qed.

(** X6: when no step of the list is required, the loop never asks a
    question, whatever the steps do; and when it returns it has run every
    step: the two sequences together have grown by the number of steps. *)
Theorem X6_optional_steps_never_stop_the_loop rich total cs :
  forallb (fun c => negb (required c)) cs = true ->
  forall i s,
    (exists evs,
        trace (after (run_steps rich total i cs) s) = trace s ++ evs /\
        existsb is_prompt evs = false) /\
    (forall s', run_steps rich total i cs s = (Ok tt, s') ->
       List.length (successful_commands (self s')) + List.length (failed_commands (self s'))
       = List.length (successful_commands (self s))
         + List.length (failed_commands (self s)) + List.length cs).
Proof.
  induction cs as [ | c rest IH ]; intros Hopt i s.
  - split.
    + exists []. simpl. now rewrite app_nil_r.
    + intros s' H. inversion H; subst. simpl. lia.
  - simpl in Hopt. apply andb_true_iff in Hopt as [Hc0 Hrest].
    apply negb_true_iff in Hc0.
    unfold after. rewrite run_steps_cons.
    pose proof (run_command_silent rich c (at_step total i c s)) as [evs [Ht Hf]].
    unfold after in Ht.
    assert (Hnp : existsb is_prompt evs = false).
    { clear Ht. induction Hf as [ | e0 evs' [Hp _] _ IH' ]; simpl; [ reflexivity | ].
      now rewrite Hp, IH'. }
    destruct (run_command rich c (at_step total i c s)) as [[[ | ] | e] s1] eqn:Hc;
      pose proof (run_command_self _ _ _ _ _ Hc) as Hself; simpl in Hself, Ht.
    + destruct (IH Hrest (S i) (after (append_successful (name c)) s1))
        as [[evs2 [Ht2 Hnp2]] Hlen].
      unfold after in *. simpl in *. split.
      * exists ([EvPrint (MsgStep i total (name c))] ++ evs ++ evs2).
        rewrite Ht2, Ht. simpl.
        split; [ now rewrite <- !app_assoc | ].
        now rewrite existsb_app, Hnp, Hnp2.
      * intros s' Hs'. rewrite (Hlen s' Hs'), Hself.
        rewrite ?length_app. simpl. lia.
    + rewrite Hc0.
      destruct (IH Hrest (S i) (after (append_failed (name c)) s1))
        as [[evs2 [Ht2 Hnp2]] Hlen].
      unfold after in *. simpl in *. split.
      * exists ([EvPrint (MsgStep i total (name c))] ++ evs ++ evs2).
        rewrite Ht2, Ht. simpl.
        split; [ now rewrite <- !app_assoc | ].
        now rewrite existsb_app, Hnp, Hnp2.
      * intros s' Hs'. rewrite (Hlen s' Hs'), Hself.
        rewrite ?length_app. simpl. lia.
    + simpl. split.
      * exists ([EvPrint (MsgStep i total (name c))] ++ evs).
        rewrite Ht. simpl. split; [ now rewrite <- !app_assoc | exact Hnp ].
      * intros s' H. discriminate H.
Qed.

End LoopFacts.

(** ** Further properties of [print_summary] and of the gate *)

Section SummaryFacts.
Context `{E : Env}.

(** X7: the rows of the rich summary table add up.  A row is there only for
    a sequence that is not empty; its count is the length of that sequence
    and equals the number of names written out plus the number folded into
    "(+N more)"; only the Successful row folds names, and then it writes out
    exactly three. *)
Theorem X7_summary_rows_add_up (m : Manager) r :
  In r (summary_rows m) ->
  0 < row_count r /\
  row_count r
  = List.length (match row_status_of r with
                 | RowSuccessful => successful_commands m
                 | RowFailed => failed_commands m
                 | RowSkipped => skipped_commands m
                 end) /\
  row_count r
  = List.length (row_components r)
    + (match row_more r with Some k => k | None => 0 end) /\
  (forall k, row_more r = Some k ->
     0 < k /\ row_status_of r = RowSuccessful /\ List.length (row_components r) = 3).
Proof.
  unfold summary_rows. intro Hin.
  apply in_app_or in Hin. destruct Hin as [Hin | Hin];
    [ | apply in_app_or in Hin; destruct Hin as [Hin | Hin] ].
  - destruct (successful_commands m) as [ | a l ] eqn:Hl; [ contradiction | ].
    destruct Hin as [<- | []]. cbn [row_count row_components row_more row_status_of].
    pose proof (length_firstn 3 (a :: l)) as Hf.
    assert (Hpos : 0 < List.length (a :: l)) by (simpl; lia).
    remember (List.length (a :: l)) as n eqn:Hn. clear Hn.
    destruct (Nat.ltb 3 n) eqn:Hlt.
    + apply Nat.ltb_lt in Hlt. rewrite Hf.
      split; [ lia | ]. split; [ reflexivity | ]. split; [ lia | ].
      intros k Hk. injection Hk as <-.
      repeat split; try reflexivity; lia.
    + apply Nat.ltb_ge in Hlt. rewrite Hf.
      split; [ lia | ]. split; [ reflexivity | ]. split; [ lia | ].
      intros k Hk. discriminate Hk.
  - destruct (failed_commands m) as [ | a l ] eqn:Hl; [ contradiction | ].
    destruct Hin as [<- | []]. cbn [row_count row_components row_more row_status_of].
    split; [ simpl; lia | ]. split; [ reflexivity | ]. split; [ lia | ].
    intros k Hk. discriminate Hk.
  - destruct (skipped_commands m) as [ | a l ] eqn:Hl; [ contradiction | ].
    destruct Hin as [<- | []]. cbn [row_count row_components row_more row_status_of].
    split; [ simpl; lia | ]. split; [ reflexivity | ]. split; [ lia | ].
    intros k Hk. discriminate Hk.
Qed.

(** X8: on both paths [print_summary] returns, and it prints "All
    installations completed successfully" with the next steps exactly when
    [failed_commands] is empty (also for a manager without any step); when
    it is not, the failed names are listed: in the Failed row of the rich
    table, in the "Failed components" line of the plain summary. *)
Theorem X8_success_message_iff_no_failure rich s :
  fst (print_summary rich s) = Ok tt /\
  exists evs,
    trace (after (print_summary rich) s) = trace s ++ evs /\
    (In (EvPrint MsgAllSuccessful) evs <-> failed_commands (self s) = []) /\
    (In (EvPrint MsgNextSteps) evs <-> failed_commands (self s) = []) /\
    (failed_commands (self s) <> [] ->
     if rich then
       exists rows,
         In (EvPrint (MsgTable rows)) evs /\
         In (mkRow RowFailed (List.length (failed_commands (self s)))
               (failed_commands (self s)) None) rows
     else In (EvPrint (MsgFailedComponents (failed_commands (self s)))) evs).
Proof.
  unfold after, print_summary, now, bind, get_self, console_print, log, when, ret.
  destruct (time_time (world s)) as [t w]. simpl.
  destruct rich; simpl.
  - destruct (failed_commands (self s)) as [ | a l ] eqn:Hl; simpl;
      (split; [ reflexivity | ]); eexists;
      (split; [ repeat rewrite <- app_assoc; simpl; reflexivity | ]).
    + split; [ | split ].
      * split; [ reflexivity | ]. intros _. simpl. tauto.
      * split; [ reflexivity | ]. intros _. simpl. tauto.
      * intro H. congruence.
    + split; [ | split ].
      * split; [ | discriminate ].
        simpl. intros [H | [H | [H | [H | [H | []]]]]]; discriminate H.
      * split; [ | discriminate ].
        simpl. intros [H | [H | [H | [H | [H | []]]]]]; discriminate H.
      * intros _. eexists. split; [ simpl; right; left; reflexivity | ].
        unfold summary_rows. rewrite Hl. apply in_or_app. right.
        apply in_or_app. left. now left.
  - destruct (failed_commands (self s)) as [ | a l ] eqn:Hl; simpl;
      (split; [ reflexivity | ]); eexists;
      (split; [ repeat rewrite <- app_assoc; simpl; reflexivity | ]).
    + split; [ | split ].
      * split; [ reflexivity | ]. intros _. simpl. tauto.
      * split; [ reflexivity | ]. intros _. simpl. tauto.
      * intro H. congruence.
    + split; [ | split ].
      * split; [ | discriminate ].
        simpl. intros [H | [H | [H | [H | [H | [H | []]]]]]]; discriminate H.
      * split; [ | discriminate ].
        simpl. intros [H | [H | [H | [H | [H | [H | []]]]]]]; discriminate H.
      * intros _. simpl. tauto.
Qed.

(** X9: when each of the three version checks returns, times out, is
    missing or raises another [SubprocessError], and the console prints the
    version lines of the tools found, [check_prerequisites] runs all
    three checks, in the order Node.js, npm, Git, each with timeout 10,
    whether or not an earlier tool was missing; it returns [True] exactly
    when all three exit 0, asks nothing, leaves the manager alone, and
    prints the list of missing tools exactly when there is one. *)
Theorem X9_gate_checks_every_tool rich s rs w3 :
  gate_answers (world s) = (rs, w3) ->
  forallb classifiable rs = true ->
  rendered rich (version_lines rs) = true ->
  exists s' evs,
    check_prerequisites rich s = (Ok (forallb found rs), s') /\
    world s' = w3 /\
    self s' = self s /\
    trace s' = trace s ++ evs /\
    filter is_spawn evs = gate_spawns rs /\
    existsb is_prompt evs = false /\
    (forallb found rs = true <-> gate_missing rs = []) /\
    (forall missing,
       In (EvPrint (MsgMissingPrerequisites missing)) evs <->
       missing = gate_missing rs /\ missing <> []).
Proof.
  intros Hgate Hcls Hshown.
  pose proof (check_prerequisites_spec rich s rs w3 Hgate Hcls Hshown) as Hspec.
  eexists. exists (EvPrint MsgCheckingPrerequisites :: gate_log rs ++ missing_report rs).
  split; [ exact Hspec | ].
  split; [ reflexivity | ]. split; [ reflexivity | ]. split; [ reflexivity | ].
  split.
  { simpl. now rewrite filter_app, gate_log_spawns, missing_report_spawns, app_nil_r. }
  split.
  { simpl. now rewrite existsb_app, gate_log_no_prompt, missing_report_no_prompt. }
  split.
  { destruct (gate_answers_three _ _ _ Hgate) as (r1 & r2 & r3 & ->).
    apply found_all_iff_none_missing. }
  intro missing. split.
  - intros [H | H]; [ discriminate H | ].
    apply in_app_or in H. destruct H as [H | H].
    + exfalso. exact (gate_log_no_report _ _ H).
    + unfold missing_report in H.
      destruct (gate_missing rs) as [ | a l ] eqn:Hm; [ contradiction | ].
      destruct H as [H | [H | []]]; [ | discriminate H ].
      injection H as <-. split; [ reflexivity | discriminate ].
  - intros [-> Hne]. right. apply in_or_app. right. unfold missing_report.
    destruct (gate_missing rs); [ congruence | simpl; tauto ].
Qed.

End SummaryFacts.

(** ** Invariants of whole runs *)

Section Guarded.
Context `{E : Env}.

(** [guarded I P s s']: if the manager of [s] satisfies [I], so does the
    manager of [s'], and the log has grown by events that satisfy [P]. *)
Definition guarded (I : Manager -> Prop) (P : event Instant -> Prop)
    (s s' : State) : Prop :=
  I (self s) -> I (self s') /\ logs P s s'.

#[global] Instance guarded_preorder I P : Preorder (guarded I P).
Proof.
  split; unfold guarded.
  - intros s HI. split; [ exact HI | apply pre_refl ].
  - intros s1 s2 s3 H12 H23 HI.
    destruct (H12 HI) as [HI2 L12]. destruct (H23 HI2) as [HI3 L23].
    split; [ exact HI3 | exact (pre_trans _ _ _ L12 L23) ].
Qed.

Variable rich : bool.
Variable I : Manager -> Prop.
Variable P : event Instant -> Prop.
Variable allowed : Command -> Prop.

Hypothesis I_commands : forall m, I m -> Forall allowed (commands m).
Hypothesis I_successful : forall m n,
  I m ->
  I (mkManager (failed_commands m) (successful_commands m ++ [n])
       (skipped_commands m) (start_time m) (commands m)).
Hypothesis I_failed : forall m n,
  I m ->
  I (mkManager (failed_commands m ++ [n]) (successful_commands m)
       (skipped_commands m) (start_time m) (commands m)).
Hypothesis P_print : forall m, is_summary_line (EvPrint m) = false -> P (EvPrint m).
Hypothesis P_prompt : forall ev, is_prompt ev = true -> P ev.
Hypothesis P_gate : forall argv r,
  In argv (map (fun p => snd (fst p)) prerequisites) -> P (EvSpawn argv 10 r).
Hypothesis P_cmd : forall c r, allowed c -> P (EvSpawn (cmd c) 300 r).
Hypothesis P_check : forall c argv r,
  allowed c -> rich = true -> check_cmd c = Some argv -> P (EvSpawn argv 10 r).
Hypothesis P_summary : forall s, I (self s) -> logs P s (after (print_summary rich) s).

Lemma guarded_of_frames {A} (m : M A) :
  moves keeps_self m -> moves (logs P) m -> moves (guarded I P) m.
Proof.
  intros Hk Hl s HI. split; [ | apply Hl ].
  specialize (Hk s). unfold keeps_self in Hk. now rewrite Hk.
Qed.

Lemma guarded_get_self {A} (k : Manager -> M A) :
  (forall m, I m -> moves (guarded I P) (k m)) ->
  moves (guarded I P) (bind get_self k).
Proof. intros H s HI. exact (H (self s) HI s HI). Qed.

Ltac print_ok :=
  first [ apply logs_print; apply P_print; reflexivity
        | apply logs_print_markup; apply P_print; reflexivity ].

Lemma check_prerequisites_logs b : moves (logs P) (check_prerequisites b).
Proof.
  unfold check_prerequisites, prerequisites. simpl check_each.
  unfold check_prerequisite, print_child_output.
  repeat first
    [ apply moves_ret; exact _
    | print_ok
    | apply logs_run_subprocess; intro; apply P_gate; simpl; tauto
    | apply moves_bind; [ exact _ | | intro ]
    | apply moves_try_except;
      [ exact _ | | intros e h He; destruct e; simpl in He;
                    try discriminate He; injection He as <- ]
    | match goal with
      | |- moves _ (if ?b then _ else _) => destruct b
      | |- moves _ (match ?l with [] => _ | _ :: _ => _ end) => destruct l
      end ].
Qed.

Lemma confirm_start_logs b : moves (logs P) (confirm_start b).
Proof.
  unfold confirm_start, sys_exit. destruct b;
  repeat first
    [ apply moves_ret; exact _
    | apply moves_raise; exact _
    | print_ok
    | apply logs_ask_confirm; intro; apply P_prompt; reflexivity
    | apply logs_ask_input; intro; apply P_prompt; reflexivity
    | apply moves_when; [ exact _ | ]
    | apply moves_bind; [ exact _ | | intro ] ].
Qed.

Lemma ask_continue_logs b : moves (logs P) (ask_continue b).
Proof.
  unfold ask_continue. destruct b;
  repeat first
    [ apply moves_ret; exact _
    | apply logs_ask_confirm; intro; apply P_prompt; reflexivity
    | apply logs_ask_input; intro; apply P_prompt; reflexivity
    | apply moves_bind; [ exact _ | | intro ] ].
Qed.

Lemma ask_continue_keeps_self b : moves keeps_self (ask_continue b).
Proof. unfold ask_continue. destruct b; moves_auto. Qed.

Lemma run_command_logs b command :
  (b = true -> rich = true) ->
  allowed command -> moves (logs P) (run_command b command).
Proof.
  intros Hb Ha. unfold run_command, print_child_output, print_exception.
  destruct b.
  - destruct (check_cmd command) as [[ | a argv] | ] eqn:Hcc; simpl;
    repeat first
      [ apply moves_ret; exact _
      | apply moves_raise; exact _
      | print_ok
      | apply logs_run_subprocess; intro; apply P_cmd; exact Ha
      | apply logs_run_subprocess; intro;
        apply (P_check command); [ exact Ha | now apply Hb | exact Hcc ]
      | apply moves_when; [ exact _ | ]
      | apply moves_bind; [ exact _ | | intro ]
      | apply moves_try_except;
        [ exact _ | | intros e h He; destruct e; simpl in He;
                      try discriminate He; injection He as <- ]
      | match goal with
        | |- moves _ (if ?b then _ else _) => destruct b
        end ].
  - repeat first
      [ apply moves_ret; exact _
      | print_ok
      | apply logs_run_subprocess; intro; apply P_cmd; exact Ha
      | apply moves_when; [ exact _ | ]
      | apply moves_bind; [ exact _ | | intro ]
      | apply moves_try_except;
        [ exact _ | | intros e h He; destruct e; simpl in He;
                      try discriminate He; injection He as <- ]
      | match goal with
        | |- moves _ (if ?b then _ else _) => destruct b
        end ].
Qed.

Lemma append_successful_guarded n : moves (guarded I P) (append_successful n).
Proof.
  intros s HI. split; [ apply I_successful; exact HI | now apply logs_none ].
Qed.

Lemma append_failed_guarded n : moves (guarded I P) (append_failed n).
Proof.
  intros s HI. split; [ apply I_failed; exact HI | now apply logs_none ].
Qed.

Lemma run_steps_guarded total cs :
  Forall allowed cs -> forall i, moves (guarded I P) (run_steps rich total i cs).
Proof.
  induction 1 as [ | c rest Hc _ IH ]; intro i; simpl.
  - apply moves_ret. exact _.
  - apply moves_bind; [ exact _ | | intros _ ].
    { apply guarded_of_frames; [ apply keeps_print | print_ok ]. }
    apply moves_bind; [ exact _ | | intros [ | ] ].
    { apply guarded_of_frames;
        [ apply run_command_keeps_self | now apply run_command_logs ]. }
    + apply moves_bind; [ exact _ | apply append_successful_guarded | intros _ ].
      apply IH.
    + apply moves_bind; [ exact _ | apply append_failed_guarded | intros _ ].
      destruct (required c); [ | apply IH ].
      apply moves_bind; [ exact _ | | intros _ ].
      { apply guarded_of_frames; [ apply keeps_print | print_ok ]. }
      apply moves_bind; [ exact _ | | intros [ | ] ].
      { apply guarded_of_frames;
          [ apply ask_continue_keeps_self | apply ask_continue_logs ]. }
      * apply IH.
      * apply moves_ret. exact _.
Qed.

Lemma print_summary_keeps_self b : moves keeps_self (print_summary b).
Proof.
  intro s. destruct (print_summary_spec b s) as (s' & Hs & Hself & _).
  unfold after. rewrite Hs. exact Hself.
Qed.

Lemma run_installation_guarded : moves (guarded I P) (run_installation rich).
Proof.
  unfold run_installation, print_header.
  apply moves_bind; [ exact _ | | intros _ ].
  { apply guarded_of_frames; [ apply keeps_print | print_ok ]. }
  apply moves_bind; [ exact _ | | intros ok ].
  { apply guarded_of_frames;
      [ apply check_prerequisites_keeps_self | apply check_prerequisites_logs ]. }
  apply moves_bind; [ exact _ | | intros _ ].
  { apply moves_when; [ exact _ | ]. apply moves_raise. exact _. }
  apply moves_bind; [ exact _ | | intros _ ].
  { apply guarded_of_frames;
      [ apply confirm_start_keeps_self | apply confirm_start_logs ]. }
  apply guarded_get_self. intros m Hm.
  apply moves_bind; [ exact _ | | intros _ ].
  { apply guarded_of_frames; [ apply keeps_print | print_ok ]. }
  apply moves_bind; [ exact _ | | intros _ ].
  { apply run_steps_guarded. now apply I_commands. }
  intros s HI. split; [ | now apply P_summary ].
  pose proof (print_summary_keeps_self rich s) as Hk. unfold keeps_self in Hk.
  now rewrite Hk.
Qed.

(** The manager and the log at the end of [main]. *)
Lemma main_on_guarded cs w :
  (forall t, I (new_manager t cs)) ->
  I (self (snd (main_on cs rich w))) /\ Forall P (trace (snd (main_on cs rich w))).
Proof.
  intro Hnew. unfold main_on. destruct (time_time w) as [t w0].
  assert (Hm : moves (guarded I P)
                 (try_except (run_installation rich)
                    (fun e =>
                       match e with
                       | KeyboardInterrupt =>
                           Some (bind (console_print MsgInterrupted)
                                   (fun _ => sys_exit 1))
                       | _ =>
                           if is_Exception e then
                             Some (bind (print_exception rich (MsgUnexpectedTopLevel e) e)
                                     (fun _ => sys_exit 1))
                           else None
                       end))).
  { apply moves_try_except; [ exact _ | apply run_installation_guarded | ].
    intros e h He. destruct e; simpl in He; try discriminate He;
      injection He as <-;
      (apply moves_bind; [ exact _ | | intros _; apply moves_raise; exact _ ]);
      unfold print_exception;
      apply guarded_of_frames;
      first [ apply keeps_print | apply keeps_print_markup | print_ok ]. }
  destruct (Hm (mkState w0 [] (new_manager t cs)) (Hnew t)) as [HI [evs [Ht Hf]]].
  split; [ exact HI | ].
  unfold after in Ht. rewrite Ht. exact Hf.
Qed.

End Guarded.

Section RunInvariants.
Context `{E : Env}.

(** A line of the summary that shows nothing as skipped. *)
Definition nothing_skipped (ev : event Instant) : Prop :=
  match ev with
  | EvPrint (MsgCountSkipped n) => n = 0
  | EvPrint (MsgTable rows) => Forall (fun r => row_status_of r <> RowSkipped) rows
  | _ => True
  end.

(** A child process that the run is entitled to spawn: one of the three
    prerequisite checks (timeout 10), the invocation of a step of [cs]
    (timeout 300) or, on the rich path only, the precheck of a step of [cs]
    (timeout 10). *)
Definition declared_spawn (rich : bool) (cs : list Command)
    (ev : event Instant) : Prop :=
  match ev with
  | EvSpawn argv t _ =>
      (t = 10%Z /\ In argv [["node"; "--version"]; ["npm"; "--version"];
                            ["git"; "--version"]]) \/
      (t = 300%Z /\ exists c, In c cs /\ argv = cmd c) \/
      (t = 10%Z /\ rich = true /\ exists c, In c cs /\ check_cmd c = Some argv)
  | _ => True
  end.

Lemma print_summary_only_prints rich s :
  logs (fun ev => exists m, ev = EvPrint m) s (after (print_summary rich) s).
Proof.
  unfold after, print_summary, now, bind, get_self, console_print, log, when, ret.
  destruct (time_time (world s)) as [t w]. simpl.
  destruct rich; simpl;
    destruct (failed_commands (self s)) as [ | a l ]; simpl;
    eexists; (split; [ repeat rewrite <- app_assoc; simpl; reflexivity | ]);
    repeat constructor; eexists; reflexivity.
Qed.

Lemma summary_rows_nothing_skipped (m : Manager) :
  skipped_commands m = [] ->
  Forall (fun r => row_status_of r <> RowSkipped) (summary_rows m).
Proof.
  intro Hk. unfold summary_rows. rewrite Hk.
  apply Forall_app. split; [ | apply Forall_app; split ].
  - destruct (successful_commands m); repeat constructor. discriminate.
  - destruct (failed_commands m); repeat constructor. discriminate.
  - constructor.
Qed.

(** X10: no run of [main] ever puts a name into [skipped_commands]: the
    sequence is empty when the process ends, however it ends, and every
    summary printed on the way shows no Skipped row and the count
    "Skipped: 0". *)
Theorem X10_nothing_is_ever_skipped rich cs w :
  skipped_commands (self (snd (main_on cs rich w))) = [] /\
  Forall nothing_skipped (trace (snd (main_on cs rich w))).
Proof.
  apply (main_on_guarded rich (fun m => skipped_commands m = []) nothing_skipped
           (fun _ => True)).
  - intros m _. apply Forall_forall. intros; exact I.
  - intros m n H. exact H.
  - intros m n H. exact H.
  - intros m Hm. destruct m; simpl in *; try exact I; discriminate Hm.
  - intros ev Hp. destruct ev; simpl in *; try exact I; discriminate Hp.
  - intros; exact I.
  - intros; exact I.
  - intros; exact I.
  - intros s Hk.
    unfold after, print_summary, now, bind, get_self, console_print, log, when, ret.
    destruct (time_time (world s)) as [t w1]. simpl.
    pose proof (summary_rows_nothing_skipped (self s) Hk) as Hrows.
    destruct rich; simpl;
      destruct (failed_commands (self s)) as [ | a l ]; simpl;
      eexists; (split; [ repeat rewrite <- app_assoc; simpl; reflexivity | ]);
      repeat constructor; simpl; try exact Hrows; now rewrite Hk.
  - intro t. reflexivity.
Qed.

(** X11: every child process spawned in a run of [main] is one that the
    script declares: a prerequisite check with timeout 10, the invocation of
    one of the manager's steps with timeout 300, or, on the rich path only,
    the precheck of one of the steps with timeout 10.  In particular the
    plain path never runs a precheck, and no process is run without a
    timeout. *)
Theorem X11_only_declared_commands_are_spawned rich cs w :
  commands (self (snd (main_on cs rich w))) = cs /\
  Forall (declared_spawn rich cs) (trace (snd (main_on cs rich w))).
Proof.
  apply (main_on_guarded rich (fun m => commands m = cs) (declared_spawn rich cs)
           (fun c => In c cs)).
  - intros m Hm. rewrite Hm. apply Forall_forall. auto.
  - intros m n H. exact H.
  - intros m n H. exact H.
  - intros; exact I.
  - intros ev Hp. destruct ev; simpl in *; try exact I; discriminate Hp.
  - intros argv r Hin. simpl. left. split; [ reflexivity | exact Hin ].
  - intros c r Hin. simpl. right. left. split; [ reflexivity | ]. now exists c.
  - intros c argv r Hin Hr Hc. simpl. right. right.
    split; [ reflexivity | ]. split; [ exact Hr | ]. now exists c.
  - intros s _. eapply logs_weaken; [ | apply print_summary_only_prints ].
    intros ev [m ->]. exact I.
  - intro t. reflexivity.
Qed.

(** A method that leaves only [P]-events in the log when it raises. *)
Definition quiet_raise (P : event Instant -> Prop) {A} (m : M A) : Prop :=
  forall s e s', m s = (Raise e, s') -> logs P s s'.

Lemma quiet_raise_of_moves P {A} (m : M A) : moves (logs P) m -> quiet_raise P m.
Proof. intros Hm s e s' H. rewrite <- (after_eq _ _ _ _ H). apply Hm. Qed.

Lemma quiet_raise_bind P {A B} (m : M A) (k : A -> M B) :
  moves (logs P) m -> (forall a, quiet_raise P (k a)) -> quiet_raise P (bind m k).
Proof.
  intros Hm Hk s e s'. unfold bind. specialize (Hm s). unfold after in Hm.
  destruct (m s) as [[a | e0] s1]; simpl in Hm.
  - intro H. eapply pre_trans; [ exact Hm | exact (Hk a s1 e s' H) ].
  - intro H. injection H as <- <-. exact Hm.
Qed.

Lemma summary_of_logs s s' :
  logs (fun ev => is_summary_line ev = false) s s' ->
  summary_of (trace s') = summary_of (trace s).
Proof.
  intros [evs [Ht Hf]]. unfold summary_of. rewrite Ht, filter_app.
  replace (filter is_summary_line evs) with (@nil (event Instant));
    [ now rewrite app_nil_r | ].
  symmetry. clear Ht. induction Hf as [ | ev evs' Hev _ IH ]; simpl;
    [ reflexivity | now rewrite Hev ].
Qed.

(** X12: [run_installation] prints the summary exactly when it returns:
    every run that returns, halted or not, ends with the summary, and a run
    that is left by an exception (the gate's [sys.exit(1)], the user's
    cancellation, an interrupt) prints no line of it. *)
Theorem X12_summary_iff_the_run_returns rich s0 r s' :
  summary_of (trace s0) = [] ->
  run_installation rich s0 = (r, s') ->
  (r = Ok tt <-> summary_of (trace s') <> []).
Proof.
  intros H0 Hrun.
  set (P := fun ev : event Instant => is_summary_line ev = false).
  assert (Pp : forall m, is_summary_line (EvPrint m) = false -> P (EvPrint m))
    by (intros m H; exact H).
  assert (Pq : forall ev, is_prompt ev = true -> P ev)
    by (intros ev H; destruct ev; try discriminate H; reflexivity).
  assert (Ps : forall argv t r0, P (@EvSpawn Instant argv t r0)) by reflexivity.
  split.
  - intros ->.
    destruct (run_installation_returns _ _ _ Hrun) as (s1 & s2 & _ & _ & _ & Hsum).
    assert (Hin : exists t1 t2, In (EvPrint (MsgTotalTime t1 t2)) (trace s')).
    { revert Hsum.
      unfold print_summary, now, bind, get_self, console_print, log, when, ret.
      destruct (time_time (world s2)) as [t w]. simpl.
      destruct rich; simpl;
        destruct (failed_commands (self s2)) as [ | a l ]; simpl;
        intro H; inversion H; subst; clear H; simpl;
        exists (start_time (self s2)), t;
        repeat rewrite in_app_iff; simpl; tauto. }
    destruct Hin as (t1 & t2 & Hin). intro Hnil.
    assert (Hin' : In (EvPrint (MsgTotalTime t1 t2)) (summary_of (trace s'))).
    { unfold summary_of. apply filter_In. split; [ exact Hin | reflexivity ]. }
    rewrite Hnil in Hin'. contradiction.
  - intro Hne. destruct r as [[] | e]; [ reflexivity | ]. exfalso. apply Hne.
    rewrite <- H0. apply summary_of_logs.
    revert Hrun. generalize s0 e s'. clear.
    change (quiet_raise (fun ev => is_summary_line ev = false) (run_installation rich)).
    set (P := fun ev : event Instant => is_summary_line ev = false).
    assert (Pp : forall m, is_summary_line (EvPrint m) = false -> P (EvPrint m))
      by (intros m H; exact H).
    assert (Pq : forall ev, is_prompt ev = true -> P ev)
      by (intros ev H; destruct ev; try discriminate H; reflexivity).
    unfold run_installation, print_header.
    apply quiet_raise_bind; [ apply logs_print; reflexivity | intros _ ].
    apply quiet_raise_bind;
      [ apply check_prerequisites_logs; [ exact Pp | reflexivity ] | intros ok ].
    apply quiet_raise_bind;
      [ apply moves_when; [ exact _ | apply moves_raise; exact _ ] | intros _ ].
    apply quiet_raise_bind;
      [ apply confirm_start_logs; [ exact Pp | exact Pq ] | intros _ ].
    apply quiet_raise_bind; [ apply moves_get_self; exact _ | intros m ].
    apply quiet_raise_bind; [ apply logs_print; reflexivity | intros _ ].
    apply quiet_raise_bind.
    + intro s.
      assert (Hg : moves (guarded (fun _ => True) P)
                     (run_steps rich (List.length (commands m)) 1 (commands m))).
      { apply (run_steps_guarded rich (fun _ => True) P (fun _ => True)).
        - intros; exact I.
        - intros; exact I.
        - exact Pp.
        - exact Pq.
        - reflexivity.
        - reflexivity.
        - apply Forall_forall. intros; exact I. }
      exact (proj2 (Hg s I)).
    + intros _ s e s' H.
      destruct (print_summary_spec rich s) as (s2 & Hs & _). congruence.
Qed.

End RunInvariants.

(** ** Exceptions that leave the run *)

Section Escapes.
Context `{E : Env}.

(** No collaborator raises [SystemExit] of its own. *)
Definition no_exit_from_outside : Prop :=
  (forall argv t w c, fst (subprocess_run argv t w) <> Raise (SystemExit c)) /\
  (forall p d w c, fst (Confirm_ask p d w) <> Raise (SystemExit c)) /\
  (forall p w c, fst (input p w) <> Raise (SystemExit c)).

(** Every exception that [m] raises satisfies [Pe]. *)
Definition raises {A} (Pe : exn -> Prop) (m : M A) : Prop :=
  forall s e s', m s = (Raise e, s') -> Pe e.

(** An exit requested by the script: status 0 or 1. *)
Definition own_exit (e : exn) : Prop :=
  match e with
  | SystemExit c => c = 0%Z \/ c = 1%Z
  | _ => True
  end.

(** A collaborator was interrupted from the keyboard. *)
Definition interrupted (ev : event Instant) : bool :=
  match ev with
  | EvSpawn _ _ (Raise KeyboardInterrupt)
  | EvConfirm _ _ (Raise KeyboardInterrupt)
  | EvInput _ (Raise KeyboardInterrupt) => true
  | _ => false
  end.

(** [m] either logs no interrupt, or raises [KeyboardInterrupt] right after
    the first one. *)
Definition stops_at_interrupt {A} (m : M A) : Prop :=
  forall s r s',
    m s = (r, s') ->
    exists evs,
      trace s' = trace s ++ evs /\
      (existsb interrupted evs = false \/
       (r = Raise KeyboardInterrupt /\
        exists evs0 ev,
          evs = evs0 ++ [ev] /\ interrupted ev = true /\
          existsb interrupted evs0 = false)).

End Escapes.

Section EscapeLemmas.
Context `{E : Env}.

Section Raises.
Variable Pe : exn -> Prop.

Lemma raises_ret {A} (a : A) : raises Pe (ret a).
Proof. intros s e s' H. discriminate H. Qed.

Lemma raises_raise {A} e : Pe e -> raises Pe (@raise _ A e).
Proof. intros He s e' s' H. injection H as <- _. exact He. Qed.

Lemma raises_bind {A B} (m : M A) (k : A -> M B) :
  raises Pe m -> (forall a, raises Pe (k a)) -> raises Pe (bind m k).
Proof.
  intros Hm Hk s e s'. unfold bind.
  destruct (m s) as [[a | e0] s1] eqn:Hms.
  - apply Hk.
  - intro H. injection H as <- _. exact (Hm _ _ _ Hms).
Qed.

Lemma raises_try_except {A} (body : M A) handler :
  raises Pe body ->
  (forall e h, handler e = Some h -> raises Pe h) ->
  raises Pe (try_except body handler).
Proof.
  intros Hb Hh s e s'. unfold try_except.
  destruct (body s) as [[a | e0] s1] eqn:Hbs; [ discriminate | ].
  destruct (handler e0) as [h | ] eqn:He.
  - apply (Hh e0 h He).
  - intro H. injection H as <- _. exact (Hb _ _ _ Hbs).
Qed.

Lemma raises_when c (body : M unit) : raises Pe body -> raises Pe (when c body).
Proof. intro Hb. destruct c; simpl; [ exact Hb | apply raises_ret ]. Qed.

Lemma raises_log ev : raises Pe (log ev).
Proof. intros s e s' H. discriminate H. Qed.

Lemma raises_get_self : raises Pe get_self.
Proof. intros s e s' H. discriminate H. Qed.

Lemma raises_set_self m : raises Pe (set_self m).
Proof. intros s e s' H. discriminate H. Qed.

Lemma raises_now : raises Pe now.
Proof.
  intros s e s'. unfold now. destruct (time_time (world s)). discriminate.
Qed.

End Raises.

Hypothesis Hout : no_exit_from_outside.

Lemma raises_run_subprocess argv t : raises own_exit (run_subprocess argv t).
Proof.
  destruct Hout as (Hp & _ & _).
  intros s e s'. unfold run_subprocess. specialize (Hp argv t (world s)).
  destruct (subprocess_run argv t (world s)) as [r w]. simpl in Hp.
  intro H. injection H as -> _. destruct e; try exact I.
  exfalso. now apply (Hp code).
Qed.

Lemma raises_ask_confirm p d : raises own_exit (ask_confirm p d).
Proof.
  destruct Hout as (_ & Hc & _).
  intros s e s'. unfold ask_confirm. specialize (Hc p d (world s)).
  destruct (Confirm_ask p d (world s)) as [r w]. simpl in Hc.
  intro H. injection H as -> _. destruct e; try exact I.
  exfalso. now apply (Hc code).
Qed.

Lemma raises_ask_input p : raises own_exit (ask_input p).
Proof.
  destruct Hout as (_ & _ & Hi).
  intros s e s'. unfold ask_input. specialize (Hi p (world s)).
  destruct (input p (world s)) as [r w]. simpl in Hi.
  intro H. injection H as -> _. destruct e; try exact I.
  exfalso. now apply (Hi code).
Qed.

Lemma raises_print_markup b m : raises own_exit (print_markup b m).
Proof.
  intros s e s'. unfold print_markup, raise, console_print, log.
  destruct b; intro H; [ injection H as <- _; exact I | discriminate H ].
Qed.

Ltac raises_auto :=
  repeat first
    [ progress unfold print_child_output, print_exception
    | apply raises_ret
    | apply raises_raise; simpl; tauto
    | apply raises_print_markup
    | apply raises_log
    | apply raises_get_self
    | apply raises_set_self
    | apply raises_now
    | apply raises_run_subprocess
    | apply raises_ask_confirm
    | apply raises_ask_input
    | apply raises_when
    | apply raises_bind; [ | intro ]
    | apply raises_try_except;
      [ | intros ?e ?h ?He;
          match goal with
          | He0 : _ = Some _ |- _ =>
              match type of He0 with
              | context [ match ?x with _ => _ end ] =>
                  destruct x; simpl in He0; try discriminate He0;
                  injection He0 as <-
              end
          end ]
    | match goal with
      | |- raises _ (if ?b then _ else _) => destruct b
      | |- raises _ (match ?l with [] => _ | _ :: _ => _ end) => destruct l
      end ].

Lemma raises_check_prerequisites b : raises own_exit (check_prerequisites b).
Proof.
  unfold check_prerequisites, prerequisites. simpl check_each.
  unfold check_prerequisite, console_print. raises_auto.
Qed.

Lemma raises_run_command b command : raises own_exit (run_command b command).
Proof. unfold run_command, console_print. destruct b; raises_auto. Qed.

Lemma raises_confirm_start b : raises own_exit (confirm_start b).
Proof. unfold confirm_start, sys_exit, console_print. destruct b; raises_auto. Qed.

Lemma raises_ask_continue b : raises own_exit (ask_continue b).
Proof. unfold ask_continue. destruct b; raises_auto. Qed.

Lemma raises_run_steps b total cs :
  forall i, raises own_exit (run_steps b total i cs).
Proof.
  induction cs as [ | c rest IH ]; intro i; simpl.
  - apply raises_ret.
  - unfold console_print, append_successful, append_failed.
    apply raises_bind; [ apply raises_log | intros _ ].
    apply raises_bind; [ apply raises_run_command | intros [ | ] ].
    + apply raises_bind; [ raises_auto | intros _; apply IH ].
    + apply raises_bind; [ raises_auto | intros _ ].
      destruct (required c); [ | apply IH ].
      apply raises_bind; [ apply raises_log | intros _ ].
      apply raises_bind; [ apply raises_ask_continue | intros [ | ] ];
        [ apply IH | apply raises_ret ].
Qed.

Lemma raises_run_installation b : raises own_exit (run_installation b).
Proof.
  unfold run_installation, print_header, sys_exit, console_print.
  apply raises_bind; [ apply raises_log | intros _ ].
  apply raises_bind; [ apply raises_check_prerequisites | intros ok ].
  apply raises_bind; [ raises_auto | intros _ ].
  apply raises_bind; [ apply raises_confirm_start | intros _ ].
  apply raises_bind; [ apply raises_get_self | intros m ].
  apply raises_bind; [ apply raises_log | intros _ ].
  apply raises_bind; [ apply raises_run_steps | intros _ ].
  intros s e s' H. destruct (print_summary_spec b s) as (s2 & Hs & _). congruence.
Qed.

End EscapeLemmas.

Section EscapeClaims.
Context `{E : Env}.

(** X13: as long as no collaborator raises [SystemExit] of its own, [main]
    ends in one of four ways only: it returns (status 0), it leaves with
    [sys.exit(0)], it leaves with [sys.exit(1)], or, on the rich path only,
    it is left by the [MarkupError] with which rich rejects a line (status
    1); the plain path lets no exception but [SystemExit] out of [main], and
    the exit status of the process is 0 or 1. *)
Theorem X13_exit_status_is_zero_or_one rich cs w :
  no_exit_from_outside ->
  (fst (main_on cs rich w) = Ok tt \/
   fst (main_on cs rich w) = Raise (SystemExit 0) \/
   fst (main_on cs rich w) = Raise (SystemExit 1) \/
   (rich = true /\ fst (main_on cs rich w) = Raise MarkupError)) /\
  (exit_status (fst (main_on cs rich w)) = 0%Z \/
   exit_status (fst (main_on cs rich w)) = 1%Z).
Proof.
  intro Hout. unfold main_on. destruct (time_time w) as [t w0].
  unfold try_except.
  destruct (run_installation rich (mkState w0 [] (new_manager t cs)))
    as [[[] | e] s1] eqn:Hrun.
  - simpl. split; [ now left | now left ].
  - pose proof (raises_run_installation Hout rich _ _ _ Hrun) as He.
    destruct e; simpl in *;
      unfold bind, print_exception, print_markup, console_print, log, sys_exit, raise;
      destruct rich; simpl;
      try (split; [ right; right; left; reflexivity | right; reflexivity ]);
      try (split; [ right; right; right; split; reflexivity | right; reflexivity ]);
      destruct He as [-> | ->]; simpl;
      first [ split; [ right; left; reflexivity | left; reflexivity ]
            | split; [ right; right; left; reflexivity | right; reflexivity ] ].
Qed.

End EscapeClaims.

Section InterruptLemmas.
Context `{E : Env}.

Lemma stops_quiet {A} (m : M A) :
  (forall s r s', m s = (r, s') ->
     exists evs, trace s' = trace s ++ evs /\ existsb interrupted evs = false) ->
  stops_at_interrupt m.
Proof.
  intros H s r s' Hm. destruct (H s r s' Hm) as [evs [Ht Hq]].
  exists evs. split; [ exact Ht | now left ].
Qed.

Lemma stops_ret {A} (a : A) : stops_at_interrupt (ret a).
Proof.
  apply stops_quiet. intros s r s' H. injection H as _ <-.
  exists []. now rewrite app_nil_r.
Qed.

Lemma stops_raise {A} e : stops_at_interrupt (@raise _ A e).
Proof.
  apply stops_quiet. intros s r s' H. injection H as _ <-.
  exists []. now rewrite app_nil_r.
Qed.

Lemma stops_get_self : stops_at_interrupt get_self.
Proof.
  apply stops_quiet. intros s r s' H. injection H as _ <-.
  exists []. now rewrite app_nil_r.
Qed.

Lemma stops_set_self m : stops_at_interrupt (set_self m).
Proof.
  apply stops_quiet. intros s r s' H. injection H as _ <-.
  exists []. simpl. now rewrite app_nil_r.
Qed.

Lemma stops_now : stops_at_interrupt now.
Proof.
  apply stops_quiet. intros s r s'. unfold now.
  destruct (time_time (world s)) as [t w]. intro H. injection H as _ <-.
  exists []. simpl. now rewrite app_nil_r.
Qed.

Lemma stops_print m : stops_at_interrupt (console_print m).
Proof.
  apply stops_quiet. intros s r s' H. injection H as _ <-.
  exists [EvPrint m]. split; reflexivity.
Qed.

Lemma stops_print_markup b m : stops_at_interrupt (print_markup b m).
Proof.
  destruct b; [ apply stops_raise | apply stops_print ].
Qed.

(** A call of a collaborator, logged with what came back. *)
Lemma stops_call {A} (ev : result A -> event Instant) (r : result A) s s' :
  trace s' = trace s ++ [ev r] ->
  (interrupted (ev r) = true -> r = Raise KeyboardInterrupt) ->
  exists evs,
    trace s' = trace s ++ evs /\
    (existsb interrupted evs = false \/
     (r = Raise KeyboardInterrupt /\
      exists evs0 e0,
        evs = evs0 ++ [e0] /\ interrupted e0 = true /\
        existsb interrupted evs0 = false)).
Proof.
  intros Ht Hi. exists [ev r]. split; [ exact Ht | ].
  destruct (interrupted (ev r)) eqn:Hev.
  - right. split; [ now apply Hi | ]. exists [], (ev r). now repeat split.
  - left. simpl. now rewrite Hev.
Qed.

Lemma stops_run_subprocess argv t : stops_at_interrupt (run_subprocess argv t).
Proof.
  intros s r s'. unfold run_subprocess.
  destruct (subprocess_run argv t (world s)) as [r0 w].
  intro H. injection H as <- <-.
  apply (stops_call (fun x => EvSpawn argv t x)); [ reflexivity | ].
  destruct r0 as [ | []]; simpl; congruence.
Qed.

Lemma stops_ask_confirm p d : stops_at_interrupt (ask_confirm p d).
Proof.
  intros s r s'. unfold ask_confirm.
  destruct (Confirm_ask p d (world s)) as [r0 w].
  intro H. injection H as <- <-.
  apply (stops_call (fun x => EvConfirm p d x)); [ reflexivity | ].
  destruct r0 as [ | []]; simpl; congruence.
Qed.

Lemma stops_ask_input p : stops_at_interrupt (ask_input p).
Proof.
  intros s r s'. unfold ask_input.
  destruct (input p (world s)) as [r0 w].
  intro H. injection H as <- <-.
  apply (stops_call (fun x => EvInput p x)); [ reflexivity | ].
  destruct r0 as [ | []]; simpl; congruence.
Qed.

Lemma stops_bind {A B} (m : M A) (k : A -> M B) :
  stops_at_interrupt m -> (forall a, stops_at_interrupt (k a)) ->
  stops_at_interrupt (bind m k).
Proof.
  intros Hm Hk s r s'. unfold bind.
  destruct (m s) as [[a | e] s1] eqn:Hms;
    destruct (Hm _ _ _ Hms) as [evs1 [Ht1 H1]].
  - intro Hks. destruct (Hk a _ _ _ Hks) as [evs2 [Ht2 H2]].
    destruct H1 as [Hq1 | [Hr1 _]]; [ | discriminate Hr1 ].
    exists (evs1 ++ evs2). split; [ now rewrite Ht2, Ht1, app_assoc | ].
    destruct H2 as [Hq2 | [Hr2 [evs0 [ev [-> [Hev Hq0]]]]]].
    + left. now rewrite existsb_app, Hq1, Hq2.
    + right. split; [ exact Hr2 | ].
      exists (evs1 ++ evs0), ev. split; [ now rewrite app_assoc | ].
      split; [ exact Hev | now rewrite existsb_app, Hq1, Hq0 ].
  - intro H. injection H as <- <-. exists evs1. split; [ exact Ht1 | ].
    destruct H1 as [Hq1 | [Hr1 Hrest]]; [ now left | right ].
    split; [ now injection Hr1 as -> | exact Hrest ].
Qed.

Lemma stops_try_except {A} (body : M A) handler :
  handler KeyboardInterrupt = None ->
  stops_at_interrupt body ->
  (forall e h, handler e = Some h -> stops_at_interrupt h) ->
  stops_at_interrupt (try_except body handler).
Proof.
  intros Hki Hb Hh s r s'. unfold try_except.
  destruct (body s) as [[a | e] s1] eqn:Hbs;
    destruct (Hb _ _ _ Hbs) as [evs1 [Ht1 H1]].
  - intro H. injection H as <- <-. exists evs1. split; [ exact Ht1 | ].
    destruct H1 as [Hq1 | [Hr1 _]]; [ now left | discriminate Hr1 ].
  - destruct H1 as [Hq1 | [Hr1 Hrest]].
    + destruct (handler e) as [h | ] eqn:He.
      * intro Hhs. destruct (Hh e h He _ _ _ Hhs) as [evs2 [Ht2 H2]].
        exists (evs1 ++ evs2). split; [ now rewrite Ht2, Ht1, app_assoc | ].
        destruct H2 as [Hq2 | [Hr2 [evs0 [ev [-> [Hev Hq0]]]]]].
        -- left. now rewrite existsb_app, Hq1, Hq2.
        -- right. split; [ exact Hr2 | ].
           exists (evs1 ++ evs0), ev. split; [ now rewrite app_assoc | ].
           split; [ exact Hev | now rewrite existsb_app, Hq1, Hq0 ].
      * intro H. injection H as <- <-. exists evs1. split; [ exact Ht1 | now left ].
    + injection Hr1 as ->. rewrite Hki.
      intro H. injection H as <- <-. exists evs1. split; [ exact Ht1 | ].
      right. split; [ reflexivity | exact Hrest ].
Qed.

Lemma stops_when c (body : M unit) :
  stops_at_interrupt body -> stops_at_interrupt (when c body).
Proof. intro Hb. destruct c; simpl; [ exact Hb | apply stops_ret ]. Qed.

Ltac stops_auto :=
  repeat first
    [ progress unfold print_child_output, print_exception
    | apply stops_ret
    | apply stops_raise
    | apply stops_print
    | apply stops_print_markup
    | apply stops_get_self
    | apply stops_set_self
    | apply stops_now
    | apply stops_run_subprocess
    | apply stops_ask_confirm
    | apply stops_ask_input
    | apply stops_when
    | apply stops_bind; [ | intro ]
    | apply stops_try_except;
      [ reflexivity | | intros ?e ?h ?He;
          match goal with
          | He0 : _ = Some _ |- _ =>
              match type of He0 with
              | context [ match ?x with _ => _ end ] =>
                  destruct x; simpl in He0; try discriminate He0;
                  injection He0 as <-
              end
          end ]
    | match goal with
      | |- stops_at_interrupt (if ?b then _ else _) => destruct b
      | |- stops_at_interrupt (match ?l with [] => _ | _ :: _ => _ end) => destruct l
      end ].

Lemma stops_check_prerequisites b : stops_at_interrupt (check_prerequisites b).
Proof.
  unfold check_prerequisites, prerequisites. simpl check_each.
  unfold check_prerequisite. stops_auto.
Qed.

Lemma stops_run_command b command : stops_at_interrupt (run_command b command).
Proof. unfold run_command. destruct b; stops_auto. Qed.

Lemma stops_confirm_start b : stops_at_interrupt (confirm_start b).
Proof. unfold confirm_start, sys_exit. destruct b; stops_auto. Qed.

Lemma stops_ask_continue b : stops_at_interrupt (ask_continue b).
Proof. unfold ask_continue. destruct b; stops_auto. Qed.

Lemma stops_run_steps b total cs :
  forall i, stops_at_interrupt (run_steps b total i cs).
Proof.
  induction cs as [ | c rest IH ]; intro i; simpl.
  - apply stops_ret.
  - unfold append_successful, append_failed.
    apply stops_bind; [ apply stops_print | intros _ ].
    apply stops_bind; [ apply stops_run_command | intros [ | ] ].
    + apply stops_bind; [ stops_auto | intros _; apply IH ].
    + apply stops_bind; [ stops_auto | intros _ ].
      destruct (required c); [ | apply IH ].
      apply stops_bind; [ apply stops_print | intros _ ].
      apply stops_bind; [ apply stops_ask_continue | intros [ | ] ];
        [ apply IH | apply stops_ret ].
Qed.

Lemma stops_print_summary b : stops_at_interrupt (print_summary b).
Proof. unfold print_summary. destruct b; stops_auto. Qed.

Lemma stops_run_installation b : stops_at_interrupt (run_installation b).
Proof.
  unfold run_installation, print_header, sys_exit.
  apply stops_bind; [ apply stops_print | intros _ ].
  apply stops_bind; [ apply stops_check_prerequisites | intros ok ].
  apply stops_bind; [ stops_auto | intros _ ].
  apply stops_bind; [ apply stops_confirm_start | intros _ ].
  apply stops_bind; [ apply stops_get_self | intros m ].
  apply stops_bind; [ apply stops_print | intros _ ].
  apply stops_bind; [ apply stops_run_steps | intros _ ].
  apply stops_print_summary.
Qed.

(** X14: an interrupt is never swallowed.  If in a run of [main] any child
    process or question is interrupted from the keyboard
    ([KeyboardInterrupt]), nothing more is run or asked: the log ends with
    that call followed by the line "Installation interrupted by user.", and
    [main] leaves with [sys.exit(1)]. *)
Theorem X14_interrupt_ends_the_run rich cs w :
  existsb interrupted (trace (snd (main_on cs rich w))) = true ->
  fst (main_on cs rich w) = Raise (SystemExit 1) /\
  exit_status (fst (main_on cs rich w)) = 1%Z /\
  exists tr ev,
    trace (snd (main_on cs rich w)) = tr ++ [ev; EvPrint MsgInterrupted] /\
    interrupted ev = true /\
    existsb interrupted tr = false.
Proof.
  unfold main_on. destruct (time_time w) as [t w0]. unfold try_except.
  destruct (run_installation rich (mkState w0 [] (new_manager t cs)))
    as [r s1] eqn:Hrun.
  destruct (stops_run_installation rich _ _ _ Hrun) as [evs [Ht H]].
  simpl in Ht.
  destruct H as [Hq | [-> [evs0 [ev [-> [Hev Hq0]]]]]].
  - intro Hex. exfalso.
    destruct r as [[] | e]; simpl in Hex.
    + rewrite Ht, Hq in Hex. discriminate Hex.
    + destruct e; simpl in Hex;
        unfold bind, print_exception, print_markup, console_print, log, sys_exit, raise
          in Hex;
        destruct rich; simpl in Hex;
        rewrite Ht in Hex;
        rewrite ?existsb_app in Hex; simpl in Hex;
        rewrite Hq in Hex; discriminate Hex.
  - intros _. simpl. split; [ reflexivity | ]. split; [ reflexivity | ].
    exists evs0, ev. rewrite Ht. split; [ now rewrite <- app_assoc | ].
    split; [ exact Hev | exact Hq0 ].
Qed.

End InterruptLemmas.

(** ** The further properties on concrete runs *)

Lemma X2_witness :
  exists p evs,
    trace (snd (run_command true step_A abc_state)) = trace abc_state ++ evs /\
    In (EvSpawn (cmd step_A) 300 (Ok p)) evs /\
    returncode p = 0%Z /\
    In (EvPrint (MsgCompleted (name step_A))) evs /\
    (true = true -> truthy_opt_list (check_cmd step_A) = true ->
     exists argv q,
       check_cmd step_A = Some argv /\
       In (EvSpawn argv 10 (Ok q)) evs /\ returncode q = 0%Z).
Proof.
  apply (X2_success_means_exit_zero (E := careful_user) true step_A abc_state).
  reflexivity.
Defined.


Lemma X4_witness :
  exists s2 evs,
    run_steps true 3 2 (step_B :: [step_C]) eager_state
    = run_steps true 3 3 [step_C] s2 /\
    world s2 = tt /\
    failed_commands (self s2) = failed_commands (self eager_state) ++ [name step_B] /\
    successful_commands (self s2) = successful_commands (self eager_state) /\
    skipped_commands (self s2) = skipped_commands (self eager_state) /\
    trace s2 = trace eager_state ++ evs /\
    List.length (filter is_prompt evs) = 1 /\
    halted (trace s2) = halted (trace eager_state).
Proof.
  apply (X4_accepted_failure_goes_on (E := eager_user) true 3 2 step_B [step_C]
           eager_state
           (snd (run_command true step_B (at_step 3 2 step_B eager_state))) tt).
  - reflexivity.
  - reflexivity.
  - reflexivity.
Defined.

Lemma X6_witness :
  (exists evs,
      trace (after (run_steps true 1 1 [step_B_optional])
               (start_state eager_user tt tt [step_B_optional]))
      = trace (start_state eager_user tt tt [step_B_optional]) ++ evs /\
      existsb is_prompt evs = false) /\
  (forall s',
     run_steps true 1 1 [step_B_optional]
       (start_state eager_user tt tt [step_B_optional]) = (Ok tt, s') ->
     List.length (successful_commands (self s')) + List.length (failed_commands (self s'))
     = List.length (successful_commands
                      (self (start_state eager_user tt tt [step_B_optional])))
       + List.length (failed_commands
                        (self (start_state eager_user tt tt [step_B_optional])))
       + List.length [step_B_optional]).
Proof.
  apply (X6_optional_steps_never_stop_the_loop (E := eager_user) true 1
           [step_B_optional]).
  reflexivity.
Defined.

Lemma X7_witness :
  0 < 4 /\
  4 = List.length (successful_commands
                     (mkManager (E := eager_user) [] ["A"; "B"; "C"; "D"] [] tt [])) /\
  4 = List.length ["A"; "B"; "C"] + 1 /\
  (forall k, Some 1 = Some k ->
     0 < k /\ RowSuccessful = RowSuccessful /\ List.length ["A"; "B"; "C"] = 3).
Proof.
  apply (X7_summary_rows_add_up (E := eager_user)
           (mkManager (E := eager_user) [] ["A"; "B"; "C"; "D"] [] tt [])
           (mkRow RowSuccessful 4 ["A"; "B"; "C"] (Some 1))).
  simpl. left. reflexivity.
Defined.

Lemma X9_witness :
  exists s' evs,
    check_prerequisites true (start_state no_git tt tt default_commands)
    = (Ok (forallb found [exit_with 0; exit_with 0; Raise FileNotFoundError]), s') /\
    world s' = tt /\
    self s' = self (start_state no_git tt tt default_commands) /\
    trace s' = trace (start_state no_git tt tt default_commands) ++ evs /\
    filter is_spawn evs
    = gate_spawns [exit_with 0; exit_with 0; Raise FileNotFoundError] /\
    existsb is_prompt evs = false /\
    (forallb found [exit_with 0; exit_with 0; Raise FileNotFoundError] = true <->
     gate_missing [exit_with 0; exit_with 0; Raise FileNotFoundError] = []) /\
    (forall missing,
       In (EvPrint (MsgMissingPrerequisites missing)) evs <->
       missing = gate_missing [exit_with 0; exit_with 0; Raise FileNotFoundError] /\
       missing <> []).
Proof.
  apply (X9_gate_checks_every_tool (E := no_git) true
           (start_state no_git tt tt default_commands)
           [exit_with 0; exit_with 0; Raise FileNotFoundError] tt);
    reflexivity.
Defined.

Lemma X12_witness :
  fst (run_installation true abc_state) = Ok tt <->
  summary_of (trace (snd (run_installation true abc_state))) <> [].
Proof.
  apply (X12_summary_iff_the_run_returns (E := careful_user) true abc_state
           (fst (run_installation true abc_state))
           (snd (run_installation true abc_state))).
  - reflexivity.
  - vm_compute. reflexivity.
Defined.

Lemma X13_witness :
  (fst (halted_run true) = Ok tt \/
   fst (halted_run true) = Raise (SystemExit 0) \/
   fst (halted_run true) = Raise (SystemExit 1) \/
   (true = true /\ fst (halted_run true) = Raise MarkupError)) /\
  (exit_status (fst (halted_run true)) = 0%Z \/
   exit_status (fst (halted_run true)) = 1%Z).
Proof.
  apply (X13_exit_status_is_zero_or_one (E := careful_user) true
           [step_A; step_B; step_C] tt).
  repeat split.
  - intros argv t w c. simpl. unfold proc_script.
    destruct (argv_eqb argv ["b"] || argv_eqb argv ["false"])%bool;
      [ discriminate | ].
    destruct (argv_eqb argv ["hang"]); discriminate.
  - intros p d w c. simpl. discriminate.
  - intros p w c. simpl. discriminate.
Defined.

Lemma X14_witness :
  fst (interrupted_run true) = Raise (SystemExit 1) /\
  exit_status (fst (interrupted_run true)) = 1%Z /\
  exists tr ev,
    trace (snd (interrupted_run true)) = tr ++ [ev; EvPrint MsgInterrupted] /\
    interrupted ev = true /\
    existsb interrupted tr = false.
Proof.
  apply (X14_interrupt_ends_the_run (E := interrupting_user) true
           [step_A; step_B; step_C] tt).
  reflexivity.
Defined.
